(** * tool_alfred: the Downloads Janitor, the Dev Git Overview and the
    feature supervisor, embedded from the Python sources under [src/app].

    Conventions of the embedding.
    - Python [str] values are [string]s of ASCII characters; [str.lower]
      acts on the letters [A]-[Z].
    - A [pathlib.Path] is the list of its parts; [p / s] appends the single
      part [s].
    - Python exceptions are values of [exn]; a function that may raise
      returns a [result].
    - [time.time()], [st_mtime] and [datetime] instants are integers ([Z]). *)

From Stdlib Require Import ZArith Lia Ascii String.
From stdpp Require Import gmap strings list fin_maps pretty sorting.

Open Scope string_scope.
Open Scope list_scope.

(** ** Python [str] methods used by the sources *)

Module Str.

Definition lower_ascii (c : ascii) : ascii :=
  let n := nat_of_ascii c in
  if (65 <=? n)%nat && (n <=? 90)%nat then ascii_of_nat (n + 32) else c.

(** [s.lower()] *)
Fixpoint lower (s : string) : string :=
  match s with
  | "" => ""
  | String c s' => String (lower_ascii c) (lower s')
  end.

(** [s.lstrip(".")] *)
Fixpoint lstrip_dot (s : string) : string :=
  match s with
  | String "." s' => lstrip_dot s'
  | _ => s
  end.

(** [s.rfind(c)], with [None] for Python's [-1]. *)
Fixpoint rfind (c : ascii) (s : string) : option nat :=
  match s with
  | "" => None
  | String a s' =>
      match rfind c s' with
      | Some i => Some (S i)
      | None => if decide (a = c) then Some 0%nat else None
      end
  end.

(** [s[i:]] and [s[:i]] for [0 <= i]. *)
Fixpoint drop (i : nat) (s : string) : string :=
  match i, s with
  | O, _ => s
  | S i', String _ s' => drop i' s'
  | S _, "" => ""
  end.

Fixpoint take (i : nat) (s : string) : string :=
  match i, s with
  | O, _ => ""
  | S i', String a s' => String a (take i' s')
  | S _, "" => ""
  end.

(** [sub in s] *)
Fixpoint contains (sub s : string) : bool :=
  String.prefix sub s ||
  match s with
  | "" => false
  | String _ s' => contains sub s'
  end.

(** [c in s] for a single character. *)
Fixpoint has_char (c : ascii) (s : string) : bool :=
  match s with
  | "" => false
  | String a s' => bool_decide (a = c) || has_char c s'
  end.

(** [s.split(c, 1)] when [c in s]: the text before the first [c] and the
    text after it. *)
Fixpoint split_once (c : ascii) (s : string) : string * string :=
  match s with
  | "" => ("", "")
  | String a s' =>
      if decide (a = c) then ("", s')
      else let '(l, r) := split_once c s' in (String a l, r)
  end.

(** The ASCII line boundaries of [str.splitlines]: LF, VT, FF, CR, FS, GS
    and RS; CR LF counts as one boundary. *)
Definition is_linebreak (c : ascii) : bool :=
  match c with
  | "010" | "011" | "012" | "013" | "028" | "029" | "030" => true
  | _ => false
  end%char.

(** [s.splitlines()]: [cur] is the current line, reversed. *)
Fixpoint splitlines_go (cur : option string) (s : string) : list string :=
  match s with
  | "" => option_list (String.rev <$> cur)
  | String a s' =>
      if is_linebreak a then
        String.rev (default "" cur) ::
        match a, s' with
        | "013"%char, String "010"%char s'' => splitlines_go None s''
        | _, _ => splitlines_go None s'
        end
      else splitlines_go (Some (String a (default "" cur))) s'
  end.

(** The ASCII characters that [str.strip()] removes. *)
Definition is_space (c : ascii) : bool :=
  match c with
  | "009" | "010" | "011" | "012" | "013"
  | "028" | "029" | "030" | "031" | " " => true
  | _ => false
  end%char.

Fixpoint lstrip (s : string) : string :=
  match s with
  | String a s' => if is_space a then lstrip s' else s
  | "" => ""
  end.

(** [s.strip()] *)
Definition strip (s : string) : string :=
  String.rev (lstrip (String.rev (lstrip s))).

(** [sep.join(parts)] *)
Fixpoint join (sep : string) (parts : list string) : string :=
  match parts with
  | [] => ""
  | [p] => p
  | p :: rest => p +:+ sep +:+ join sep rest
  end.

End Str.

(** ** [pathlib] *)

Module Pathlib.

(** A path is the list of its parts. *)
Definition Path := list string.

(** [p / s] for a single part [s]. *)
Definition joinpath (p : Path) (s : string) : Path := p ++ [s].

(** [p.name] *)
Definition name (p : Path) : string := List.last p "".

(** [PurePath.suffix] of a final component:
    [i = name.rfind('.')]; [name[i:]] if [0 < i < len(name) - 1] else ['']. *)
Definition name_suffix (n : string) : string :=
  match Str.rfind "." n with
  | Some i =>
      if (0 <? i)%nat && (i <? String.length n - 1)%nat then Str.drop i n else ""
  | None => ""
  end.

(** [PurePath.stem] of a final component. *)
Definition name_stem (n : string) : string :=
  match Str.rfind "." n with
  | Some i =>
      if (0 <? i)%nat && (i <? String.length n - 1)%nat then Str.take i n else n
  | None => n
  end.

Definition suffix (p : Path) : string := name_suffix (name p).
Definition stem (p : Path) : string := name_stem (name p).

(** [p.relative_to(root)]: [None] stands for [ValueError]. *)
Fixpoint relative_to (p root : Path) : option Path :=
  match root, p with
  | [], _ => Some p
  | r :: root', x :: p' => if decide (x = r) then relative_to p' root' else None
  | _ :: _, [] => None
  end.

End Pathlib.

Import Pathlib.

(** ** Exceptions and results *)

Inductive exn : Type :=
  | FileNotFoundError
  | FileExistsError
  | OSError
  | KeyError (key : string).

Inductive result (A : Type) : Type :=
  | Ok (a : A)
  | Raise (e : exn).
Arguments Ok {A} a.
Arguments Raise {A} e.

(** Sequencing stops at the first exception: [x ← r; k] is stdpp's bind. *)
#[global] Instance result_ret : MRet result := fun A a => Ok a.
#[global] Instance result_bind : MBind result := fun A B k r =>
  match r with
  | Ok a => k a
  | Raise e => Raise e
  end.

(** * The Downloads Janitor: [features/download_janitor.py] *)

Module Classify.

Definition images : gset string :=
  {[ "png"; "jpg"; "jpeg"; "gif"; "webp"; "svg"; "heic"; "tiff"; "bmp" ]}.
Definition videos : gset string :=
  {[ "mp4"; "mov"; "mkv"; "avi"; "webm"; "m4v" ]}.
Definition audio : gset string :=
  {[ "mp3"; "m4a"; "aac"; "wav"; "flac"; "ogg" ]}.
Definition docs : gset string :=
  {[ "pdf"; "doc"; "docx"; "xls"; "xlsx"; "ppt"; "pptx"; "txt"; "md"; "rtf";
     "csv"; "mdx" ]}.
Definition archives : gset string :=
  {[ "zip"; "rar"; "7z"; "tar"; "gz"; "bz2"; "xz" ]}.
Definition code : gset string :=
  {[ "js"; "jsx"; "ts"; "tsx"; "py"; "json"; "yml"; "yaml"; "toml"; "ini";
     "sql"; "sh" ]}.
Definition apps : gset string := {[ "dmg"; "pkg" ]}.

(** The chain of membership tests of [_classify], on the extension. *)
Definition category_of (ext : string) : string :=
  if bool_decide (ext ∈ images) then "images"
  else if bool_decide (ext ∈ videos) then "videos"
  else if bool_decide (ext ∈ audio) then "audio"
  else if bool_decide (ext ∈ docs) then "docs"
  else if bool_decide (ext ∈ archives) then "archives"
  else if bool_decide (ext ∈ code) then "code"
  else if bool_decide (ext ∈ apps) then "apps"
  else "other".

(** [ext = path.suffix.lower().lstrip(".")] *)
Definition extension (path : Path) : string :=
  Str.lstrip_dot (Str.lower (suffix path)).

Definition _classify (path : Path) : string := category_of (extension path).

(** The closed set of categories. *)
Definition categories : list string :=
  [ "images"; "videos"; "audio"; "docs"; "archives"; "code"; "apps"; "other" ].

End Classify.

(** ** The file system below the janitor's root, and [utils/fs.py]

    The scan reads the entries of the root and the names inside the
    destination folders [root / folder], so the state is a tree of depth two:
    the entries of the root by name, and for each directory among them the
    set of names it holds.  A folder name of the settings is one path part
    (as the default names are), neither ["."] nor [".."].  The functions of
    [utils/fs.py] take the paths [root / name] and [root / folder / dst] by
    their parts below the root. *)

Module Fs.

(** What [path.stat()] gives for an entry: its [st_mtime],
    [FileNotFoundError] (a dangling link, a file removed meanwhile), or
    another [OSError] (a link loop, a denied lookup). *)
Inductive stat_result : Type :=
  | StatOk (mtime : Z)
  | StatNotFound
  | StatOSError.

(** An entry of the root directory: a non-directory with the outcome of its
    [stat], or a directory with its mtime and the names it contains. *)
Inductive node : Type :=
  | File (st : stat_result)
  | Dir (mtime : Z) (children : gset string).

(** The root directory maps entry names to nodes. *)
Abbreviation tree := (gmap string node).

(** [root.iterdir()]: the names of the root's entries, listed once. *)
Definition iterdir (fs : tree) : list string := (map_to_list fs).*1.

(** [(root / name).is_dir()] *)
Definition is_dir (fs : tree) (name : string) : bool :=
  match fs !! name with
  | Some (Dir _ _) => true
  | _ => false
  end.

(** [(root / name).stat().st_mtime] *)
Definition stat_mtime (fs : tree) (name : string) : result Z :=
  match fs !! name with
  | Some (File (StatOk mtime)) => Ok mtime
  | Some (File StatNotFound) => Raise FileNotFoundError
  | Some (File StatOSError) => Raise OSError
  | Some (Dir mtime _) => Ok mtime
  | None => Raise FileNotFoundError
  end.

(** The names present in [root / folder]; nothing exists below a missing
    folder or below a regular file. *)
Definition listing (fs : tree) (folder : string) : gset string :=
  match fs !! folder with
  | Some (Dir _ children) => children
  | _ => ∅
  end.

Section Fnmatch.

(** [fnmatch.fnmatch name pattern], a function of the standard library. *)
Variable fnmatch : string -> string -> bool.

Definition matches_any (name : string) (patterns : list string) : bool :=
  existsb (fnmatch name) patterns.

End Fnmatch.

(** [is_recent]: only [FileNotFoundError] is caught. *)
Definition is_recent (fs : tree) (name : string) (now min_age_seconds : Z)
  : result bool :=
  match stat_mtime fs name with
  | Ok mtime => Ok (bool_decide (now - mtime < min_age_seconds)%Z)
  | Raise FileNotFoundError => Ok true
  | Raise e => Raise e
  end.

Definition is_in_top_folder (path root : Path) (top_folders : gset string)
  : bool :=
  match relative_to path root with
  | None => true
  | Some [] => true
  | Some (part0 :: _) => bool_decide (part0 ∈ top_folders)
  end.

(** [f"{stem} ({i}){suffix}"] *)
Definition alt_name (stem suffix : string) (i : nat) : string :=
  stem +:+ " (" +:+ pretty i +:+ ")" +:+ suffix.

(** The [while True] loop of [unique_target_path] over the names [taken] in
    the destination directory.  The loop leaves at the first free name; the
    counter [fuel] bounds the number of probes, and once as many distinct
    names as [taken] holds were found taken the next one is free
    ([UniquePathFacts.free_candidate]), so it is returned without a further
    test. *)
Fixpoint probe (fuel : nat) (taken : gset string) (stem suffix : string)
    (i : nat) : string :=
  let alt := alt_name stem suffix i in
  match fuel with
  | O => alt
  | S fuel' =>
      if bool_decide (alt ∈ taken) then probe fuel' taken stem suffix (S i)
      else alt
  end.

(** [unique_target_path(dest_dir, filename)], as the final component of the
    returned path; [taken] is the set of names existing in [dest_dir]. *)
Definition unique_target_path (taken : gset string) (filename : string)
  : string :=
  if bool_decide (filename ∈ taken) then
    probe (size taken) taken (name_stem filename) (name_suffix filename) 2
  else filename.

(** [ensure_dir(root / folder)]: [mkdir(parents=True, exist_ok=True)]. *)
Definition ensure_dir (now : Z) (fs : tree) (folder : string) : result tree :=
  match fs !! folder with
  | Some (Dir _ _) => Ok fs
  | Some (File _) => Raise FileExistsError
  | None => Ok (<[folder := Dir now ∅]> fs)
  end.

(** [os.replace(root / src, root / folder / dst)] for a non-directory
    [src]; renaming a directory is outside the model. *)
Definition os_replace (fs : tree) (src folder dst : string) : result tree :=
  match fs !! src with
  | Some (File _) =>
      match fs !! folder with
      | Some (Dir mtime children) =>
          Ok (<[folder := Dir mtime ({[dst]} ∪ children)]> (delete src fs))
      | _ => Raise FileNotFoundError
      end
  | Some (Dir _ _) => Raise OSError
  | None => Raise FileNotFoundError
  end.

(** [atomic_move(src, dest)] with [dest = root / folder / dst]: the file
    system it leaves, and the exception if one was raised. *)
Definition atomic_move (now : Z) (fs : tree) (src folder dst : string)
  : tree * option exn :=
  match ensure_dir now fs folder with
  | Raise e => (fs, Some e)
  | Ok fs1 =>
      match os_replace fs1 src folder dst with
      | Raise e => (fs1, Some e)
      | Ok fs2 => (fs2, None)
      end
  end.

End Fs.

Import Fs.

(** ** [DownloadsJanitor] *)

Module Janitor.

Import Classify.

Record JanitorSettings : Type := {
  root : Path;
  scan_interval_seconds : Z;
  min_file_age_seconds : Z;
  dry_run : bool;
  ignore : list string;
  protected_folders : list string;
  folders : gmap string string
}.

(** The counts and the list of moves that [_scan_once] logs and hands to
    [_maybe_write_obsidian]. *)
Record report : Type := {
  moved_count : nat;
  skipped_count : nat;
  moves : list (Path * Path)
}.

Definition no_report : report :=
  {| moved_count := 0; skipped_count := 0; moves := [] |}.

(** [skipped += 1] *)
Definition skip (r : report) : report :=
  {| moved_count := moved_count r;
     skipped_count := S (skipped_count r);
     moves := moves r |}.

(** [moved_count += 1; moves.append((entry, dest))] *)
Definition record_move (r : report) (entry dest : Path) : report :=
  {| moved_count := S (moved_count r);
     skipped_count := skipped_count r;
     moves := moves r ++ [(entry, dest)] |}.

(** [cfg.folders.get(key, cfg.folders["other"])]: the default argument is
    evaluated before [get] is called, so a missing ["other"] raises
    [KeyError] whatever [key] is. *)
Definition folder_for (folders : gmap string string) (key : string)
  : result string :=
  match folders !! "other" with
  | None => Raise (KeyError "other")
  | Some other => Ok (default other (folders !! key))
  end.

Section Scan.

Variable fnmatch : string -> string -> bool.
Variable cfg : JanitorSettings.

(** The body of the [for] loop of [_scan_once] for the entry [name];
    [now] is the reading of [time.time()] during the scan. *)
Definition scan_entry (now : Z) (st : tree * report) (name : string)
  : result (tree * report) :=
  let '(fs, r) := st in
  let entry := joinpath (root cfg) name in
  if is_dir fs name then Ok st
  else if matches_any fnmatch name (ignore cfg) then Ok (fs, skip r)
  else
    recent ← is_recent fs name now (min_file_age_seconds cfg);
    if (recent : bool) then Ok (fs, skip r)
    else if is_in_top_folder entry (root cfg)
              (list_to_set (protected_folders cfg))
    then Ok (fs, skip r)
    else
      let key := _classify entry in
      folder ← folder_for (folders cfg) key;
      let dest_dir := joinpath (root cfg) folder in
      let dst := unique_target_path (listing fs folder) name in
      let dest := joinpath dest_dir dst in
      if dry_run cfg then Ok (fs, record_move r entry dest)
      else
        match atomic_move now fs name folder dst with
        | (fs', None) => Ok (fs', record_move r entry dest)
        | (fs', Some _) => Ok (fs', r)
        end.

(** The [for] loop: an exception leaves it. *)
Fixpoint scan_entries (now : Z) (names : list string) (st : tree * report)
  : result (tree * report) :=
  match names with
  | [] => Ok st
  | name :: names' =>
      st' ← scan_entry now st name; scan_entries now names' st'
  end.

(** [_scan_once]: the file system after the scan and its report. *)
Definition _scan_once (now : Z) (fs : tree) : result (tree * report) :=
  scan_entries now (iterdir fs) (fs, no_report).

(** The first [cycles] rounds of the [while True] loop of [run_forever]:
    scan, then sleep for the scan interval.  Nothing catches an exception
    of [_scan_once], so it leaves [run_forever]. *)
Fixpoint run_forever_loop (cycles : nat) (clock : Z) (fs : tree) : result tree :=
  match cycles with
  | O => Ok fs
  | S cycles' =>
      st ← _scan_once clock fs;
      run_forever_loop cycles' (clock + scan_interval_seconds cfg)%Z (fst st)
  end.

End Scan.



(** [_bootstrap]: [ensure_dir] for every configured folder. *)
Definition _bootstrap (cfg : JanitorSettings) (now : Z) (fs : tree)
  : result tree :=
  foldl (fun acc folder => fs' ← acc; ensure_dir now fs' folder) (Ok fs)
        (map_to_list (folders cfg)).*2.

(** The fall-back values of [_load_settings]. *)
Definition default_folders : gmap string string :=
  list_to_map
    [ ("images", "Images"); ("videos", "Videos"); ("audio", "Audio");
      ("docs", "Docs"); ("archives", "Archives"); ("code", "Code");
      ("apps", "Apps"); ("other", "Other") ].

Definition default_ignore : list string :=
  [ ".DS_Store"; ".*"; "*.crdownload"; "*.part"; "*.download" ].

(** The configuration sub-tree of the feature, as far as the scan reads it;
    [None] is a missing key. *)
Record raw_settings : Type := {
  raw_root : option Path;
  raw_scan_interval_seconds : option Z;
  raw_min_file_age_seconds : option Z;
  raw_dry_run : option bool;
  raw_ignore : option (list string);
  raw_protected_folders : option (list string);
  raw_folders : option (gmap string string)
}.

(** [x or d] for a dictionary [x]: an empty dictionary is falsy. *)
Definition or_map (x : option (gmap string string)) (d : gmap string string)
  : gmap string string :=
  match x with
  | Some m => if decide (m = ∅) then d else m
  | None => d
  end.

Definition or_list (x : option (list string)) (d : list string) : list string :=
  match x with
  | Some [] | None => d
  | Some l => l
  end.

Definition _load_settings (raw : raw_settings) : JanitorSettings :=
  let folders := or_map (raw_folders raw) default_folders in
  let protected :=
    or_list (raw_protected_folders raw)
            (elements (list_to_set (map_to_list folders).*2 : gset string)) in
  {| root := default ["/"; "downloads"] (raw_root raw);
     scan_interval_seconds := default 120%Z (raw_scan_interval_seconds raw);
     min_file_age_seconds := default 60%Z (raw_min_file_age_seconds raw);
     dry_run := default false (raw_dry_run raw);
     ignore := default default_ignore (raw_ignore raw);
     protected_folders := protected;
     folders := folders |}.

Definition no_raw_settings : raw_settings :=
  {| raw_root := None; raw_scan_interval_seconds := None;
     raw_min_file_age_seconds := None; raw_dry_run := None;
     raw_ignore := None; raw_protected_folders := None;
     raw_folders := None |}.

End Janitor.

(** * The Dev Git Overview: [features/dev_git_overview.py] *)

Module GitOverview.

Record DevGitOverviewSettings : Type := {
  root : Path;
  scan_interval_seconds : Z;
  max_depth : Z;
  ignore_dirs : list string
}.

Record RepoStatus : Type := {
  project : string;
  branch : string;
  last_push : string;
  (** an aware [datetime], as microseconds since the epoch *)
  last_push_at : option Z;
  dirty_count : Z
}.

(** *** Discovery *)

(** A directory, as [os.walk] sees it: its sub-directories by name (the
    entries of [dirnames], in listing order).  Regular files play no part
    in discovery; links to directories and directories that cannot be
    listed are left out of the model. *)
Unset Elimination Schemes.
Inductive dtree : Type :=
  | DNode (subdirs : list (string * dtree)).
Set Elimination Schemes.

Definition subdirs (t : dtree) : list (string * dtree) :=
  match t with DNode l => l end.

(** One step of the loop body of [_discover_repositories] at a directory of
    depth [depth] with sub-directories [dirnames]: whether the directory is
    appended to [repos], and what the body leaves in [dirnames]. *)
Definition visit (cfg : DevGitOverviewSettings) (depth : Z)
    (dirnames : list string) : bool * list string :=
  if bool_decide (0 <= max_depth cfg)%Z && bool_decide (max_depth cfg < depth)%Z
  then (false, [])
  else if bool_decide (".git" ∈ dirnames) then (true, [])
  else (false, filter (fun name => name ∉ ignore_dirs cfg) dirnames).

(** [os.walk] top-down from [current], together with the loop body: every
    directory the walk yields, in order, with the flag "recorded as a
    repository".  The walk goes on into the sub-directories whose names the
    body left in [dirnames]. *)
Fixpoint walk (cfg : DevGitOverviewSettings) (root_depth : nat)
    (current : Path) (t : dtree) : list (Path * bool) :=
  match t with
  | DNode subs =>
      let depth := (Z.of_nat (length current) - Z.of_nat root_depth)%Z in
      let '(is_repo, keep) := visit cfg depth (map fst subs) in
      (current, is_repo) ::
      flat_map
        (fun sub : string * dtree =>
           if bool_decide (fst sub ∈ keep)
           then walk cfg root_depth (joinpath current (fst sub)) (snd sub)
           else [])
        subs
  end.

(** The directories the walk enters. *)
Definition visited (cfg : DevGitOverviewSettings) (t : dtree) : list Path :=
  map fst (walk cfg (length (root cfg)) (root cfg) t).

Definition _discover_repositories (cfg : DevGitOverviewSettings) (t : dtree)
  : list Path :=
  map fst (filter (fun v => snd v = true) (walk cfg (length (root cfg)) (root cfg) t)).

(** Depth of a path relative to the root, as the loop computes it. *)
Definition depth_of (cfg : DevGitOverviewSettings) (p : Path) : Z :=
  (Z.of_nat (length p) - Z.of_nat (length (root cfg)))%Z.

(** Directory names are distinct in every directory. *)
Fixpoint distinct_names (t : dtree) : Prop :=
  match t with
  | DNode subs =>
      NoDup (map fst subs) /\
      (fix all (l : list (string * dtree)) : Prop :=
         match l with
         | [] => True
         | sub :: l' => distinct_names (snd sub) /\ all l'
         end) subs
  end.

(** *** Last-push resolution *)

(** What running [git -C repo args] gives: [None] when the process cannot
    be run, else its return code and standard output. *)
Definition git := list string -> option (Z * string).

Definition _run_git (repo : git) (args : list string) : option string :=
  match repo args with
  | None => None
  | Some (returncode, stdout) =>
      if decide (returncode = 0%Z) then Some (Str.strip stdout) else None
  end.

(** The [for] loop over the reflog lines: the timestamp of the first line
    that has a ["|"] and whose message holds "update by push". *)
Fixpoint first_push (lines : list string) : option string :=
  match lines with
  | [] => None
  | line :: rest =>
      if negb (Str.has_char "|" line) then first_push rest
      else
        let '(when, message) := Str.split_once "|" line in
        if Str.contains "update by push" (Str.lower message) then Some when
        else first_push rest
  end.

Definition upstream_args : list string :=
  [ "rev-parse"; "--abbrev-ref"; "--symbolic-full-name"; "@{u}" ].
Definition reflog_args (upstream : string) : list string :=
  [ "reflog"; "show"; "--date=iso-strict"; "--format=%cd|%gs"; upstream;
    "-n"; "100" ].
Definition tip_args : list string :=
  [ "log"; "-1"; "--date=iso-strict"; "--format=%cd"; "@{u}" ].

(** A parsed [datetime]: wall-clock microseconds and the UTC offset, if the
    text carries one. *)
Record parsed : Type := { wall_us : Z; utcoffset_us : option Z }.

Section LastPush.

(** [datetime.fromisoformat]; [None] stands for [ValueError]. *)
Variable fromisoformat : string -> option parsed.

(** A naive value is taken as UTC; the result is the instant. *)
Definition _parse_git_datetime (value : string) : option Z :=
  match fromisoformat (Str.strip value) with
  | None => None
  | Some d =>
      match utcoffset_us d with
      | None => Some (wall_us d)
      | Some off => Some (wall_us d - off)%Z
      end
  end.

Definition _resolve_last_push (repo : git) : string * option Z :=
  match _run_git repo upstream_args with
  | None => ("no upstream", None)
  | Some upstream =>
      let reflog := _run_git repo (reflog_args upstream) in
      let pushed :=
        match reflog with
        | Some text =>
            if decide (text = "") then None
            else first_push (Str.splitlines_go None text)
        | None => None
        end in
      match pushed with
      | Some when => (when, _parse_git_datetime when)
      | None =>
          match _run_git repo tip_args with
          | Some upstream_commit_date =>
              if decide (upstream_commit_date = "") then ("unknown", None)
              else (upstream_commit_date,
                    _parse_git_datetime upstream_commit_date)
          | None => ("unknown", None)
          end
      end
  end.

End LastPush.

(** *** Flags *)

(** [timedelta(days=d)] and [timedelta(hours=h)], in microseconds. *)
Definition timedelta_days (d : Z) : Z := (d * 86400 * 1000000)%Z.
Definition timedelta_hours (h : Z) : Z := (h * 3600 * 1000000)%Z.

(** The list [flags] that [_build_flags] fills for a non-null timestamp. *)
Definition flag_list (last_push_at now_utc dirty : Z) : list string :=
  let age := (now_utc - last_push_at)%Z in
  (if bool_decide (age > timedelta_days 7)%Z then ["stale>7d"] else []) ++
  (if bool_decide (age > timedelta_hours 24)%Z && bool_decide (dirty > 0)%Z
   then ["dirty+24h"] else []).

Definition _build_flags (status : RepoStatus) (now_utc : Z) : string :=
  match last_push_at status with
  | None => "-"
  | Some at_ =>
      let flags := flag_list at_ now_utc (dirty_count status) in
      match flags with
      | [] => "-"
      | _ => Str.join ", " flags
      end
  end.

End GitOverview.

(** * The feature supervisor: [main.py] *)

Module Supervisor.

Inductive level : Type := INFO | WARN | ERROR.

(** A line written by the logger. *)
Definition line : Type := level * string.

(** The keys of [registry.FEATURES]. *)
Definition FEATURES : list string := [ "downloads_janitor"; "dev_git_overview" ].

(** How the process ends: [main] returns, or [sys.exit(code)]. *)
Inductive ending : Type :=
  | Returned
  | SysExit (code : Z).

(** The exit status of the interpreter: [main()] is the last statement of
    the script, so a return from it ends the process with status 0. *)
Definition exit_status (e : ending) : Z :=
  match e with
  | Returned => 0%Z
  | SysExit code => code
  end.

(** Where the main thread stands. *)
Inductive phase : Type :=
  | Starting (pending : list string)   (* the loop that starts the workers *)
  | Announcing (key : string) (pending : list string)
                                       (* started, "Started" not yet logged *)
  | Polling                            (* the [while True] liveness loop *)
  | Ended (e : ending).

(** A started worker thread: its feature key and [is_alive()]. *)
Record worker : Type := { feature_key : string; is_alive : bool }.

Record state : Type := {
  main_phase : phase;
  workers : list worker;
  log : list line
}.

(** What can happen next: the main thread takes its next step, the feature
    of worker [i] raises [Exception(msg)] out of [run_forever], or SIGTERM
    or SIGINT is delivered. *)
Inductive event : Type :=
  | MainStep
  | WorkerRaises (i : nat) (msg : string)
  | Signal.

Definition say (l : level) (msg : string) (s : state) : state :=
  {| main_phase := main_phase s; workers := workers s; log := log s ++ [(l, msg)] |}.

Definition goto (p : phase) (s : state) : state :=
  {| main_phase := p; workers := workers s; log := log s |}.

(** [main] up to the installation of the signal handlers. *)
Definition main_start (enabled_features : list string) : state :=
  let s0 := {| main_phase := Polling; workers := []; log := [] |} in
  match enabled_features with
  | [] => goto (Ended Returned) (say WARN "No enabled_features configured. Exiting." s0)
  | _ =>
      match List.find (fun key => bool_decide (key ∉ FEATURES)) enabled_features with
      | Some key => goto (Ended Returned) (say ERROR ("Unknown feature: " +:+ key) s0)
      | None => goto (Starting enabled_features) s0
      end
  end.

(** [_run_feature_worker]: the exception is logged and the thread ends. *)
Definition worker_raises (i : nat) (msg : string) (s : state) : state :=
  match workers s !! i with
  | Some w =>
      if is_alive w then
        say ERROR ("Feature crashed: " +:+ feature_key w +:+ " | " +:+ msg)
          {| main_phase := main_phase s;
             workers := <[i := {| feature_key := feature_key w; is_alive := false |}]> (workers s);
             log := log s |}
      else s
  | None => s
  end.

(** One step of the main thread: start the next worker, log that it was
    started, or poll. *)
Definition main_step (s : state) : state :=
  match main_phase s with
  | Starting [] => goto Polling s
  | Starting (key :: pending) =>
      {| main_phase := Announcing key pending;
         workers := workers s ++ [ {| feature_key := key; is_alive := true |} ];
         log := log s |}
  | Announcing key pending =>
      goto (Starting pending) (say INFO ("Started feature=" +:+ key) s)
  | Polling =>
      if existsb is_alive (workers s) then s   (* [time.sleep(1)] *)
      else goto (Ended Returned) (say ERROR "All features stopped. Exiting." s)
  | Ended _ => s
  end.

(** [handle_sigterm] *)
Definition on_signal (s : state) : state :=
  goto (Ended (SysExit 0)) (say INFO "Shutdown signal received. Exiting." s).

Definition step (s : state) (e : event) : state :=
  match main_phase s with
  | Ended _ => s
  | Starting _ | Announcing _ _ | Polling =>
      match e with
      | MainStep => main_step s
      | WorkerRaises i msg => worker_raises i msg s
      | Signal => on_signal s
      end
  end.

(** [main] under a schedule of events. *)
Definition run (enabled_features : list string) (schedule : list event) : state :=
  foldl step (main_start enabled_features) schedule.

(** The line of the poll that found no worker alive. *)
Definition all_stopped : line := (ERROR, "All features stopped. Exiting.").

Definition crash_line (key msg : string) : line :=
  (ERROR, "Feature crashed: " +:+ key +:+ " | " +:+ msg).

End Supervisor.

(** A matcher for patterns built from literal characters, [*] and [?] (the
    fragment of [fnmatch] that the default ignore list uses), to run the scan
    on concrete trees: [glob name pattern]. *)
Fixpoint glob_pat (pattern name : string) : bool :=
  match pattern with
  | "" => bool_decide (name = "")
  | String "*" pattern' =>
      (fix star (n : string) : bool :=
         glob_pat pattern' n ||
         match n with
         | "" => false
         | String _ n' => star n'
         end) name
  | String "?" pattern' =>
      match name with
      | "" => false
      | String _ name' => glob_pat pattern' name'
      end
  | String c pattern' =>
      match name with
      | "" => false
      | String d name' => bool_decide (c = d) && glob_pat pattern' name'
      end
  end.

Definition glob (name pattern : string) : bool := glob_pat pattern name.

(** * Properties *)

(** ** Strings and paths *)

Section StrFacts.

Lemma lower_ascii_dot (c : ascii) : Str.lower_ascii c = "."%char <-> c = "."%char.
Proof.
  destruct c as [[] [] [] [] [] [] [] []]; vm_compute; split; congruence.
Qed.

Lemma lower_ascii_idem (c : ascii) :
  Str.lower_ascii (Str.lower_ascii c) = Str.lower_ascii c.
Proof. destruct c as [[] [] [] [] [] [] [] []]; reflexivity. Qed.

Lemma lower_idem (s : string) : Str.lower (Str.lower s) = Str.lower s.
Proof. induction s as [|c s IH]; simpl; [done|]. by rewrite lower_ascii_idem, IH. Qed.

Lemma length_lower (s : string) : String.length (Str.lower s) = String.length s.
Proof. induction s; simpl; auto. Qed.

Lemma rfind_dot_lower (s : string) : Str.rfind "." (Str.lower s) = Str.rfind "." s.
Proof.
  induction s as [|c s IH]; simpl; [done|]. rewrite IH.
  destruct (Str.rfind "." s); [done|].
  pose proof (lower_ascii_dot c) as Hdot.
  repeat case_decide; try done; exfalso; tauto.
Qed.

Lemma drop_lower (i : nat) (s : string) :
  Str.drop i (Str.lower s) = Str.lower (Str.drop i s).
Proof. revert s. induction i; intros [|c s]; simpl; auto. Qed.

Lemma name_suffix_lower (n : string) :
  name_suffix (Str.lower n) = Str.lower (name_suffix n).
Proof.
  unfold name_suffix. rewrite rfind_dot_lower, length_lower.
  destruct (Str.rfind "." n); [|done].
  destruct (_ && _); [apply drop_lower | done].
Qed.

End StrFacts.

(** ** Classification *)

Module ClassifyFacts.

Import Classify.

Lemma category_of_closed (ext : string) : category_of ext ∈ categories.
Proof.
  unfold category_of, categories.
  repeat (case_bool_decide; [rewrite !elem_of_cons; tauto|]).
  rewrite !elem_of_cons; tauto.
Qed.

Lemma classify_lower_suffix (p q : Path) :
  Str.lower (suffix p) = Str.lower (suffix q) -> _classify p = _classify q.
Proof. unfold _classify, extension. by intros ->. Qed.

Lemma classify_case_insensitive (p q : Path) :
  Str.lower (name p) = Str.lower (name q) -> _classify p = _classify q.
Proof.
  intros H. apply classify_lower_suffix. unfold suffix.
  by rewrite <- !name_suffix_lower, H.
Qed.

(** C8. [_classify] is a total function of the lowercased extension: every
    extension, the empty and the unknown ones included, gets one category
    of the closed set; an extension in none of the seven tables gets
    "other"; two paths whose suffixes (or whose names) agree up to case get
    the same category, and "photo.JPG" is classified as "images". *)
Theorem classify_total_on_lowercased_extension :
  (forall ext : string, category_of ext ∈ categories) /\
  (forall path : Path, _classify path ∈ categories) /\
  (forall ext : string,
      ext ∉ images ∪ videos ∪ audio ∪ docs ∪ archives ∪ code ∪ apps ->
      category_of ext = "other") /\
  category_of "" = "other" /\
  (forall p q : Path,
      Str.lower (suffix p) = Str.lower (suffix q) -> _classify p = _classify q) /\
  (forall p q : Path,
      Str.lower (name p) = Str.lower (name q) -> _classify p = _classify q) /\
  _classify ["/"; "downloads"; "photo.JPG"] = "images" /\
  _classify ["/"; "downloads"; "photo.jpg"] = "images".
Proof.
  split_and!.
  - apply category_of_closed.
  - intros path. apply category_of_closed.
  - intros ext Hext. rewrite !not_elem_of_union in Hext. destruct_and!.
    unfold category_of. by rewrite !bool_decide_eq_false_2.
  - by vm_compute.
  - apply classify_lower_suffix.
  - apply classify_case_insensitive.
  - by vm_compute.
  - by vm_compute.
Qed.

Lemma classify_total_on_lowercased_extension_witness :
  ("xyz" ∉ images ∪ videos ∪ audio ∪ docs ∪ archives ∪ code ∪ apps) /\
  category_of "xyz" = "other" /\
  Str.lower (name ["d"; "a.PnG"]) = Str.lower (name ["e"; "A.png"]) /\
  _classify ["d"; "a.PnG"] = _classify ["e"; "A.png"] /\
  Str.lower (suffix ["d"; "a.PnG"]) = Str.lower (suffix ["e"; "b.png"]) /\
  _classify ["d"; "a.PnG"] = _classify ["e"; "b.png"].
Proof.
  destruct classify_total_on_lowercased_extension
    as (_ & _ & Hother & _ & Hsuf & Hname & _).
  assert (H1 : "xyz" ∉ images ∪ videos ∪ audio ∪ docs ∪ archives ∪ code ∪ apps)
    by (apply (bool_decide_eq_false_1 _); vm_compute; reflexivity).
  assert (H2 : Str.lower (name ["d"; "a.PnG"]) = Str.lower (name ["e"; "A.png"]))
    by reflexivity.
  assert (H3 : Str.lower (suffix ["d"; "a.PnG"]) = Str.lower (suffix ["e"; "b.png"]))
    by reflexivity.
  exact (conj H1 (conj (Hother "xyz" H1)
          (conj H2 (conj (Hname _ _ H2) (conj H3 (Hsuf _ _ H3)))))).
Defined.

End ClassifyFacts.

(** ** Unique-path resolution *)

Module UniquePathFacts.

Lemma length_app_str (s t : string) :
  String.length (s +:+ t) = String.length s + String.length t.
Proof. induction s as [|a s IH]; simpl; [done|]. by rewrite IH. Qed.

Lemma app_inv_tail_str (s1 s2 u : string) : s1 +:+ u = s2 +:+ u -> s1 = s2.
Proof.
  revert s2. induction s1 as [|a s1 IH]; intros [|b s2] H.
  - done.
  - apply (f_equal String.length) in H.
    rewrite !length_app_str in H. simpl in H. lia.
  - apply (f_equal String.length) in H.
    rewrite !length_app_str in H. simpl in H. lia.
  - change (String a (s1 +:+ u) = String b (s2 +:+ u)) in H.
    injection H as -> H. f_equal. by apply IH.
Qed.

#[global] Instance alt_name_inj (stem suffix : string) :
  Inj (=) (=) (alt_name stem suffix).
Proof.
  intros i j H. unfold alt_name in H.
  apply (inj (String.app stem)) in H.
  apply (inj (String.app " (")) in H.
  apply app_inv_tail_str in H.
  by apply (inj pretty) in H.
Qed.

Section Probe.

Variables (taken : gset string) (stem suffix : string).

(** Among [size taken + 1] consecutive candidates one is free. *)
Lemma free_candidate (i : nat) :
  exists j, i <= j <= i + size taken /\ alt_name stem suffix j ∉ taken.
Proof.
  destruct (decide (Forall (fun j => alt_name stem suffix j ∈ taken)
                           (seq i (S (size taken))))) as [Hall|Hsome].
  - exfalso.
    assert (Hsub : list_to_set (alt_name stem suffix <$> seq i (S (size taken)))
                     ⊆ taken).
    { intros x Hx. apply elem_of_list_to_set, list_elem_of_fmap in Hx
        as (j & -> & Hj).
      rewrite Forall_forall in Hall. by apply Hall. }
    apply subseteq_size in Hsub.
    rewrite size_list_to_set, length_fmap, length_seq in Hsub; [lia|].
    apply NoDup_fmap_2; [apply _ | apply NoDup_seq].
  - apply not_Forall_Exists in Hsome; [|apply _].
    apply Exists_exists in Hsome as (j & Hj & Hfree).
    apply elem_of_seq in Hj. exists j. split; [lia | done].
Qed.

(** The loop returns the first free candidate from [i] on, provided one
    lies within reach of the bound. *)
Lemma probe_first_free (fuel i : nat) :
  (exists j, i <= j <= i + fuel /\ alt_name stem suffix j ∉ taken) ->
  exists j, i <= j /\
    probe fuel taken stem suffix i = alt_name stem suffix j /\
    (alt_name stem suffix j ∉ taken) /\
    forall k, i <= k < j -> alt_name stem suffix k ∈ taken.
Proof.
  revert i. induction fuel as [|fuel IH]; intros i (j & Hj & Hfree); simpl.
  - assert (j = i) as -> by lia. exists i. split_and!; [lia|done|done|lia].
  - case_bool_decide as Hi.
    + destruct (IH (S i)) as (j' & Hj' & Heq & Hfree' & Hbelow).
      { exists j. split; [|done].
        assert (j <> i) by (intros ->; done). lia. }
      exists j'. split_and!; [lia|done|done|].
      intros k Hk. destruct (decide (k = i)) as [->|]; [done|].
      apply Hbelow. lia.
    + exists i. split_and!; [lia|done|done|lia].
Qed.

End Probe.



(** C5. For every set of names present in the destination directory and
    every file name, [unique_target_path] returns a name that is not
    present; it is the file name itself when that is free, and otherwise
    "stem (i)suffix" for the smallest [i >= 2] whose name is free. *)
Theorem unique_target_path_free_and_lowest (taken : gset string) (filename : string) :
  (unique_target_path taken filename ∉ taken) /\
  (filename ∉ taken -> unique_target_path taken filename = filename) /\
  (filename ∈ taken ->
   exists i, 2 <= i /\
     unique_target_path taken filename
       = alt_name (name_stem filename) (name_suffix filename) i /\
     forall j, 2 <= j < i ->
       alt_name (name_stem filename) (name_suffix filename) j ∈ taken).
Proof.
  unfold unique_target_path.
  destruct (probe_first_free taken (name_stem filename) (name_suffix filename)
              (size taken) 2 (free_candidate taken _ _ 2))
    as (i & Hi & Heq & Hfree & Hbelow).
  case_bool_decide as Hin.
  - split_and!.
    + by rewrite Heq.
    + done.
    + intros _. exists i. by split_and!.
  - split_and!; [done|done|done].
Qed.

Lemma unique_target_path_free_and_lowest_witness :
  ("report.pdf" ∈ ({[ "report.pdf" ]} : gset string)) /\
  unique_target_path {[ "report.pdf" ]} "report.pdf" = "report (2).pdf" /\
  ("notes.txt" ∉ ({[ "report.pdf" ]} : gset string)) /\
  unique_target_path {[ "report.pdf" ]} "notes.txt" = "notes.txt".
Proof.
  destruct (unique_target_path_free_and_lowest {[ "report.pdf" ]} "report.pdf")
    as (_ & _ & Htaken).
  destruct (unique_target_path_free_and_lowest {[ "report.pdf" ]} "notes.txt")
    as (_ & Hfree & _).
  assert (H1 : "report.pdf" ∈ ({[ "report.pdf" ]} : gset string))
    by (apply (bool_decide_eq_true_1 _); vm_compute; reflexivity).
  assert (H2 : "notes.txt" ∉ ({[ "report.pdf" ]} : gset string))
    by (apply (bool_decide_eq_false_1 _); vm_compute; reflexivity).
  pose proof (Htaken H1) as _.
  split_and!; [exact H1 | by vm_compute | exact H2 | exact (Hfree H2)].
Defined.

End UniquePathFacts.

(** ** The Downloads Janitor scan *)

Module JanitorFacts.

Import Classify Janitor.

#[local] Arguments scan_entry : simpl never.

(** What the scan can observe of a root entry: its kind, and the outcome
    of [stat] or the mtime; not the contents of a directory. *)
Definition kind (o : option node) : option (stat_result + Z) :=
  match o with
  | Some (File st) => Some (inl st)
  | Some (Dir mtime _) => Some (inr mtime)
  | None => None
  end.

Lemma kind_is_dir (fs1 fs2 : tree) (n : string) :
  kind (fs1 !! n) = kind (fs2 !! n) -> is_dir fs1 n = is_dir fs2 n.
Proof.
  unfold is_dir. destruct (fs1 !! n) as [[]|], (fs2 !! n) as [[]|]; by intros [=].
Qed.

Lemma kind_is_recent (fs1 fs2 : tree) (n : string) (now age : Z) :
  kind (fs1 !! n) = kind (fs2 !! n) ->
  is_recent fs1 n now age = is_recent fs2 n now age.
Proof.
  unfold is_recent, stat_mtime.
  destruct (fs1 !! n) as [[]|], (fs2 !! n) as [[]|]; intros [=]; by subst.
Qed.

Lemma relative_to_joinpath (root : Path) (name : string) :
  relative_to (joinpath root name) root = Some [name].
Proof.
  unfold joinpath. induction root as [|r root IH]; simpl; [done|].
  by rewrite decide_True.
Qed.

Lemma is_in_top_folder_entry (root : Path) (name : string) (tops : gset string) :
  is_in_top_folder (joinpath root name) root tops = bool_decide (name ∈ tops).
Proof. unfold is_in_top_folder. by rewrite relative_to_joinpath. Qed.

(** A move, failed or not, leaves the other entries of the root as they
    are, up to the contents of the destination directory. *)
Lemma atomic_move_frame (now : Z) (fs fs' : tree) (src folder dst : string)
    (oe : option exn) (n : string) :
  atomic_move now fs src folder dst = (fs', oe) ->
  n <> src -> is_Some (fs !! n) ->
  is_Some (fs' !! n) /\ kind (fs' !! n) = kind (fs !! n).
Proof.
  unfold atomic_move, ensure_dir, os_replace. intros Hmove Hn [x Hx].
  revert Hmove.
  destruct (fs !! folder) as [[st|mt ch]|] eqn:Hfolder.
  - intros [= <- <-]. by rewrite Hx.
  - destruct (fs !! src) as [[st|mt' ch']|] eqn:Hsrc;
      [|intros [= <- <-]; by rewrite Hx..].
    rewrite Hfolder. intros [= <- <-].
    destruct (decide (n = folder)) as [->|Hnf].
    + rewrite lookup_insert_eq, Hfolder. eauto.
    + rewrite lookup_insert_ne, lookup_delete_ne, Hx by done. eauto.
  - assert (n <> folder) by congruence.
    destruct (decide (src = folder)) as [->|Hsf].
    + rewrite lookup_insert_eq. intros [= <- <-].
      rewrite lookup_insert_ne, Hx by done. eauto.
    + rewrite lookup_insert_ne by done.
      destruct (fs !! src) as [[st|mt' ch']|] eqn:Hsrc;
        rewrite ?lookup_insert_eq; intros [= <- <-];
        rewrite ?lookup_insert_ne, ?lookup_delete_ne, ?lookup_insert_ne, Hx
          by done; eauto.
Qed.

Section Scan.

Variable fnmatch : string -> string -> bool.
Variable cfg : JanitorSettings.
Variable now : Z.

(** The three checks of the loop that end in [skipped += 1], for a
    non-directory entry of the tree [fs]. *)
Definition fails_a_check (fs : tree) (name : string) : bool :=
  matches_any fnmatch name (ignore cfg)
  || match is_recent fs name now (min_file_age_seconds cfg) with
     | Ok recent => recent
     | Raise _ => false
     end
  || bool_decide (name ∈ (list_to_set (protected_folders cfg) : gset string)).

Definition is_skipped (fs : tree) (name : string) : bool :=
  negb (is_dir fs name) && fails_a_check fs name.

Lemma is_skipped_kind (fs1 fs2 : tree) (n : string) :
  kind (fs1 !! n) = kind (fs2 !! n) -> is_skipped fs1 n = is_skipped fs2 n.
Proof.
  intros H. unfold is_skipped, fails_a_check.
  by rewrite (kind_is_dir _ _ _ H), (kind_is_recent _ _ _ _ _ H).
Qed.

(** What one iteration does to the counts, by cases. *)
Lemma scan_entry_cases (fs fs' : tree) (r r' : report) (name : string) :
  scan_entry fnmatch cfg now (fs, r) name = Ok (fs', r') ->
  (is_dir fs name = true /\ fs' = fs /\ r' = r) \/
  (is_skipped fs name = true /\ fs' = fs /\ r' = skip r) \/
  (is_skipped fs name = false /\ is_dir fs name = false /\
   exists folder,
     folder_for (folders cfg) (_classify (joinpath (root cfg) name)) = Ok folder /\
     let dst := unique_target_path (listing fs folder) name in
     let dest := joinpath (joinpath (root cfg) folder) dst in
     if dry_run cfg then
       fs' = fs /\ r' = record_move r (joinpath (root cfg) name) dest
     else
       exists oe, atomic_move now fs name folder dst = (fs', oe) /\
         match oe with
         | None => r' = record_move r (joinpath (root cfg) name) dest
         | Some _ => r' = r
         end).
Proof.
  unfold scan_entry, is_skipped, fails_a_check.
  rewrite is_in_top_folder_entry.
  destruct (is_dir fs name); [intros [= <- <-]; by left|].
  destruct (matches_any _ _ _); [intros [= <- <-]; right; by left|].
  destruct (is_recent _ _ _ _) as [[]|e]; simpl;
    [intros [= <- <-]; right; by left | | done].
  case_bool_decide as Hprot; [intros [= <- <-]; right; by left|].
  destruct (folder_for _ _) as [folder|e]; simpl; [|done].
  intros H. right; right. split_and!; [done..|]. exists folder. split; [done|].
  simpl. destruct (dry_run cfg); [by injection H as <- <-|].
  destruct (atomic_move _ _ _ _ _) as [fs1 [e|]] eqn:Hmove;
    injection H as <- <-; by eexists.
Qed.

(** An iteration leaves the other entries of the root as they are. *)
Lemma scan_entry_frame (fs fs' : tree) (r r' : report) (name n : string) :
  scan_entry fnmatch cfg now (fs, r) name = Ok (fs', r') ->
  n <> name -> is_Some (fs !! n) ->
  is_Some (fs' !! n) /\ kind (fs' !! n) = kind (fs !! n).
Proof.
  intros H Hn Hsome.
  apply scan_entry_cases in H
    as [(_ & -> & _)|[(_ & -> & _)|(_ & _ & folder & _ & H)]]; [done..|].
  simpl in H. destruct (dry_run cfg).
  - by destruct H as [-> _].
  - destruct H as (oe & Hmove & _). by eapply atomic_move_frame.
Qed.

Lemma scan_entries_app (names1 names2 : list string) (st : tree * report) :
  scan_entries fnmatch cfg now (names1 ++ names2) st
  = st1 ← scan_entries fnmatch cfg now names1 st;
    scan_entries fnmatch cfg now names2 st1.
Proof.
  revert st. induction names1 as [|n names1 IH]; intros st; simpl; [done|].
  destruct (scan_entry fnmatch cfg now st n) as [st1|e]; simpl; [apply IH|done].
Qed.

Definition is_eligible (fs : tree) (name : string) : bool :=
  negb (is_dir fs name) && negb (fails_a_check fs name).

Lemma is_eligible_kind (fs1 fs2 : tree) (n : string) :
  kind (fs1 !! n) = kind (fs2 !! n) -> is_eligible fs1 n = is_eligible fs2 n.
Proof.
  intros H. unfold is_eligible, fails_a_check.
  by rewrite (kind_is_dir _ _ _ H), (kind_is_recent _ _ _ _ _ H).
Qed.

(** The counts after the loop, judged on the tree the scan started with:
    [skipped] grows by the number of listed entries that are not directories
    and fail a check; [moved_count] stays the length of [moves] and grows by
    at most the number of entries that pass every check, and by exactly that
    number in a dry run. *)
Lemma scan_entries_counts (names : list string) (fs fs' : tree) (r r' : report) :
  NoDup names -> (forall n, n ∈ names -> is_Some (fs !! n)) ->
  scan_entries fnmatch cfg now names (fs, r) = Ok (fs', r') ->
  skipped_count r' = skipped_count r + length (List.filter (is_skipped fs) names) /\
  length (moves r') - moved_count r' = length (moves r) - moved_count r /\
  moved_count r' - length (moves r') = moved_count r - length (moves r) /\
  moved_count r <= moved_count r' /\
  moved_count r' <= moved_count r + length (List.filter (is_eligible fs) names) /\
  (dry_run cfg = true ->
   moved_count r' = moved_count r + length (List.filter (is_eligible fs) names)).
Proof.
  revert fs r. induction names as [|name names IH]; intros fs r Hnd Hin; simpl.
  - intros [= <- <-]. lia.
  - apply NoDup_cons in Hnd as [Hname Hnd].
    destruct (scan_entry fnmatch cfg now (fs, r) name) as [[fs1 r1]|e] eqn:Hstep;
      simpl; [|done].
    intros Hrest.
    assert (Hframe : forall n, n ∈ names ->
              is_Some (fs1 !! n) /\ kind (fs1 !! n) = kind (fs !! n)).
    { intros n Hn. eapply scan_entry_frame; [done| |].
      - intros ->. done.
      - apply Hin. by right. }
    apply IH in Hrest; [|done|intros n Hn; by apply Hframe].
    rewrite (List.filter_ext_in (is_skipped fs1) (is_skipped fs)) in Hrest; last first.
    { intros n Hn%list_elem_of_In. apply is_skipped_kind. by apply Hframe. }
    rewrite (List.filter_ext_in (is_eligible fs1) (is_eligible fs)) in Hrest; last first.
    { intros n Hn%list_elem_of_In. apply is_eligible_kind. by apply Hframe. }
    destruct Hrest as (Hs' & Hl1 & Hl2 & Hmono & Hle & Hdry).
    apply scan_entry_cases in Hstep
      as [(Hd & _ & ->)|[(Hs & _ & ->)|(Hs & Hd & folder & _ & H)]].
    + assert (is_skipped fs name = false) as -> by (unfold is_skipped; by rewrite Hd).
      assert (is_eligible fs name = false) as -> by (unfold is_eligible; by rewrite Hd).
      split_and!; try lia. intros Hdr. specialize (Hdry Hdr). lia.
    + rewrite Hs. assert (is_eligible fs name = false) as ->.
      { unfold is_skipped, is_eligible in *.
        destruct (is_dir fs name), (fails_a_check fs name); done. }
      simpl in *. split_and!; try lia. intros Hdr. specialize (Hdry Hdr). lia.
    + rewrite Hs. assert (is_eligible fs name = true) as ->.
      { unfold is_skipped, is_eligible in *. rewrite Hd in *.
        destruct (fails_a_check fs name); done. }
      simpl in H. destruct (dry_run cfg).
      * destruct H as [_ ->]. simpl in *. rewrite length_app in *. simpl in *.
        specialize (Hdry eq_refl). split_and!; lia.
      * destruct H as ([e|] & _ & ->); simpl in *; rewrite ?length_app in *;
          simpl in *; split_and!; try lia; done.
Qed.

Lemma iterdir_NoDup (fs : tree) : NoDup (iterdir fs).
Proof. apply NoDup_fst_map_to_list. Qed.

Lemma iterdir_present (fs : tree) (n : string) : n ∈ iterdir fs -> is_Some (fs !! n).
Proof.
  unfold iterdir. intros ([n' x] & -> & H)%list_elem_of_fmap.
  apply elem_of_map_to_list in H. simpl. eauto.
Qed.

Lemma filter_partition (fs : tree) (names : list string) :
  length (List.filter (is_dir fs) names)
  + length (List.filter (is_skipped fs) names)
  + length (List.filter (is_eligible fs) names) = length names.
Proof.
  induction names as [|n names IH]; simpl; [done|].
  unfold is_skipped, is_eligible in *.
  destruct (is_dir fs n), (fails_a_check fs n); simpl; lia.
Qed.

(** An entry reaches the classification when it is not a directory and
    passes the three checks. *)
Definition passes_checks (fs : tree) (name : string) : Prop :=
  is_dir fs name = false /\
  matches_any fnmatch name (ignore cfg) = false /\
  is_recent fs name now (min_file_age_seconds cfg) = Ok false /\
  name ∉ (list_to_set (protected_folders cfg) : gset string).

Lemma scan_entry_dir (fs : tree) (r : report) (name : string) :
  is_dir fs name = true -> scan_entry fnmatch cfg now (fs, r) name = Ok (fs, r).
Proof. unfold scan_entry. by intros ->. Qed.

Lemma stat_not_found_not_dir (fs : tree) (name : string) :
  stat_mtime fs name = Raise FileNotFoundError -> is_dir fs name = false.
Proof. unfold stat_mtime, is_dir. by destruct (fs !! name) as [[[]|]|]. Qed.

Lemma is_recent_not_found (fs : tree) (name : string) (age : Z) :
  stat_mtime fs name = Raise FileNotFoundError -> is_recent fs name now age = Ok true.
Proof. unfold is_recent. by intros ->. Qed.

Lemma scan_entry_not_found (fs : tree) (r : report) (name : string) :
  stat_mtime fs name = Raise FileNotFoundError ->
  scan_entry fnmatch cfg now (fs, r) name = Ok (fs, skip r).
Proof.
  intros H. unfold scan_entry.
  rewrite (stat_not_found_not_dir _ _ H), (is_recent_not_found _ _ _ H).
  by destruct (matches_any _ _ _).
Qed.

Lemma scan_entry_passed (fs : tree) (r : report) (name : string) :
  passes_checks fs name ->
  scan_entry fnmatch cfg now (fs, r) name =
  folder ← folder_for (folders cfg) (_classify (joinpath (root cfg) name));
  let dst := unique_target_path (listing fs folder) name in
  let dest := joinpath (joinpath (root cfg) folder) dst in
  if dry_run cfg then Ok (fs, record_move r (joinpath (root cfg) name) dest)
  else
    match atomic_move now fs name folder dst with
    | (fs', None) => Ok (fs', record_move r (joinpath (root cfg) name) dest)
    | (fs', Some _) => Ok (fs', r)
    end.
Proof.
  intros (Hd & Hm & Hr & Hp). unfold scan_entry.
  rewrite Hd, Hm, Hr, is_in_top_folder_entry. simpl.
  by rewrite bool_decide_eq_false_2.
Qed.

Lemma scan_entries_raise (names1 names2 : list string) (name : string)
    (st st1 : tree * report) (e : exn) :
  scan_entries fnmatch cfg now names1 st = Ok st1 ->
  scan_entry fnmatch cfg now st1 name = Raise e ->
  scan_entries fnmatch cfg now (names1 ++ name :: names2) st = Raise e.
Proof. intros H1 H2. rewrite scan_entries_app, H1. simpl. by rewrite H2. Qed.

Lemma run_forever_loop_raise (cycles : nat) (clock : Z) (fs : tree) (e : exn) :
  _scan_once fnmatch cfg clock fs = Raise e ->
  run_forever_loop fnmatch cfg (S cycles) clock fs = Raise e.
Proof. intros H. simpl. by rewrite H. Qed.

End Scan.

(** *** Concrete trees *)

(** The settings [_load_settings] builds from an empty configuration. *)
Definition default_settings : JanitorSettings := _load_settings no_raw_settings.

(** An old picture, a file written ten seconds ago, a hidden file, a dangling
    link and the folder for images. *)
Definition tree_mixed : tree :=
  <["photo.JPG" := File (StatOk 0)]>
    (<["new.txt" := File (StatOk 990)]>
       (<[".hidden" := File (StatOk 0)]>
          (<["gone.pdf" := File StatNotFound]>
             (<["Images" := Dir 0 ∅]> ∅)))).

Definition tree_mixed_after : tree :=
  <["Images" := Dir 0 {[ "photo.JPG" ]}]> (delete "photo.JPG" tree_mixed).

Definition report_mixed : report :=
  {| moved_count := 1;
     skipped_count := 3;
     moves := [ (["/"; "downloads"; "photo.JPG"],
                 ["/"; "downloads"; "Images"; "photo.JPG"]) ] |}.

(** An entry whose [stat] fails with an error other than "not found". *)
Definition tree_link_loop : tree :=
  <["loop" := File StatOSError]> (<["a.txt" := File (StatOk 0)]> ∅).

(** C9. In the report of a scan, [skipped_count] is the number of listed
    entries that are not directories and fail the ignore, age or
    protected-folder check; [moved_count] is the number of recorded moves, at
    most the number of entries that pass the checks; a directory leaves both
    counts as they are, and so does an entry whose move raises. *)
Theorem skipped_count_counts_failed_checks
    (fnmatch : string -> string -> bool) (cfg : JanitorSettings) (now : Z)
    (fs fs' : tree) (r : report) :
  _scan_once fnmatch cfg now fs = Ok (fs', r) ->
  skipped_count r
    = length (List.filter (is_skipped fnmatch cfg now fs) (iterdir fs)) /\
  moved_count r = length (moves r) /\
  moved_count r
    <= length (List.filter (is_eligible fnmatch cfg now fs) (iterdir fs)) /\
  moved_count r + skipped_count r + length (List.filter (is_dir fs) (iterdir fs))
    <= length (iterdir fs) /\
  (forall (fs1 : tree) (r1 : report) (name : string),
      is_dir fs1 name = true ->
      scan_entry fnmatch cfg now (fs1, r1) name = Ok (fs1, r1)) /\
  (forall (fs1 fs2 : tree) (r1 : report) (name folder : string) (e : exn),
      passes_checks fnmatch cfg now fs1 name ->
      folder_for (folders cfg) (_classify (joinpath (root cfg) name)) = Ok folder ->
      dry_run cfg = false ->
      atomic_move now fs1 name folder
        (unique_target_path (listing fs1 folder) name) = (fs2, Some e) ->
      scan_entry fnmatch cfg now (fs1, r1) name = Ok (fs2, r1)).
Proof.
  intros Hscan. unfold _scan_once in Hscan.
  apply scan_entries_counts in Hscan
    as (Hs & Hl1 & Hl2 & _ & Hle & _);
    [|apply iterdir_NoDup|apply iterdir_present].
  simpl in *. pose proof (filter_partition fnmatch cfg now fs (iterdir fs)).
  split_and!; try lia.
  - intros fs1 r1 name. apply scan_entry_dir.
  - intros fs1 fs2 r1 name folder e Hpass Hfolder Hdry Hmove.
    rewrite scan_entry_passed by done. rewrite Hfolder. simpl.
    by rewrite Hdry, Hmove.
Qed.

Lemma skipped_count_counts_failed_checks_witness :
  _scan_once glob default_settings 1000 tree_mixed
    = Ok (tree_mixed_after, report_mixed) /\
  skipped_count report_mixed
    = length (List.filter (is_skipped glob default_settings 1000 tree_mixed)
                          (iterdir tree_mixed)).
Proof.
  assert (H : _scan_once glob default_settings 1000 tree_mixed
              = Ok (tree_mixed_after, report_mixed))
    by (vm_compute; reflexivity).
  exact (conj H (proj1 (skipped_count_counts_failed_checks _ _ _ _ _ _ H))).
Defined.

(** C3, as the code has it.  When [stat] fails because the entry is not
    there, [is_recent] answers "recent", the entry is skipped and the scan
    goes on with the next entry. *)
Theorem missing_file_is_skipped
    (fnmatch : string -> string -> bool) (cfg : JanitorSettings) (now : Z)
    (fs : tree) (r : report) (name : string) (names : list string) :
  stat_mtime fs name = Raise FileNotFoundError ->
  is_recent fs name now (min_file_age_seconds cfg) = Ok true /\
  scan_entry fnmatch cfg now (fs, r) name = Ok (fs, skip r) /\
  scan_entries fnmatch cfg now (name :: names) (fs, r)
    = scan_entries fnmatch cfg now names (fs, skip r).
Proof.
  intros H. split_and!.
  - by apply is_recent_not_found.
  - by apply scan_entry_not_found.
  - simpl. by rewrite scan_entry_not_found.
Qed.

Lemma missing_file_is_skipped_witness :
  stat_mtime tree_mixed "gone.pdf" = Raise FileNotFoundError /\
  scan_entry glob default_settings 1000 (tree_mixed, no_report) "gone.pdf"
    = Ok (tree_mixed, skip no_report).
Proof.
  assert (H : stat_mtime tree_mixed "gone.pdf" = Raise FileNotFoundError)
    by (vm_compute; reflexivity).
  exact (conj H (proj1 (proj2
    (missing_file_is_skipped glob default_settings 1000 tree_mixed no_report
       "gone.pdf" [] H)))).
Defined.

(** C3 as stated fails: a [stat] that raises another [OSError] is not
    caught by [is_recent], and the exception leaves the scan. *)
Lemma stat_oserror_leaves_scan :
  stat_mtime tree_link_loop "loop" = Raise OSError /\
  is_recent tree_link_loop "loop" 1000 (min_file_age_seconds default_settings)
    = Raise OSError /\
  _scan_once glob default_settings 1000 tree_link_loop = Raise OSError.
Proof. split_and!; vm_compute; reflexivity. Qed.

(** C10. The destination lookup needs the key "other": without it
    [cfg.folders.get(key, cfg.folders["other"])] raises [KeyError], in
    particular when the category has no folder either; the exception leaves
    the iteration, the scan and [run_forever].  With the key present the
    lookup succeeds, and the default settings have it. *)
Theorem missing_other_folder_aborts_scan :
  (forall (folders : gmap string string) (key : string),
      folders !! key = None -> folders !! "other" = None ->
      folder_for folders key = Raise (KeyError "other")) /\
  (forall (folders : gmap string string) (key : string),
      folders !! "other" = None ->
      folder_for folders key = Raise (KeyError "other")) /\
  (forall (folders : gmap string string) (key : string),
      is_Some (folders !! "other") ->
      exists folder, folder_for folders key = Ok folder) /\
  (forall (fnmatch : string -> string -> bool) (cfg : JanitorSettings) (now : Z)
          (fs : tree) (r : report) (name : string),
      folders cfg !! "other" = None ->
      passes_checks fnmatch cfg now fs name ->
      scan_entry fnmatch cfg now (fs, r) name = Raise (KeyError "other")) /\
  (forall (fnmatch : string -> string -> bool) (cfg : JanitorSettings) (now : Z)
          (names1 names2 : list string) (name : string)
          (st st1 : tree * report) (e : exn),
      scan_entries fnmatch cfg now names1 st = Ok st1 ->
      scan_entry fnmatch cfg now st1 name = Raise e ->
      scan_entries fnmatch cfg now (names1 ++ name :: names2) st = Raise e) /\
  (forall (fnmatch : string -> string -> bool) (cfg : JanitorSettings)
          (cycles : nat) (clock : Z) (fs : tree) (e : exn),
      _scan_once fnmatch cfg clock fs = Raise e ->
      run_forever_loop fnmatch cfg (S cycles) clock fs = Raise e) /\
  (forall raw : raw_settings,
      raw_folders raw = None ->
      folders (_load_settings raw) !! "other" = Some "Other") /\
  folders default_settings !! "other" = Some "Other".
Proof.
  assert (Hother : forall (folders : gmap string string) (key : string),
             folders !! "other" = None ->
             folder_for folders key = Raise (KeyError "other")).
  { intros folders key H. unfold folder_for. by rewrite H. }
  split_and!.
  - intros folders key _. apply Hother.
  - apply Hother.
  - intros folders key [o Ho]. unfold folder_for. rewrite Ho. eauto.
  - intros fnmatch cfg now fs r name Ho Hpass.
    rewrite scan_entry_passed by done. by rewrite Hother.
  - intros. by eapply scan_entries_raise.
  - intros. by apply run_forever_loop_raise.
  - intros raw H. unfold _load_settings. rewrite H. by vm_compute.
  - by vm_compute.
Qed.

(** Settings whose folder map names a folder for pictures only, and a tree
    holding one old text file. *)
Definition settings_without_other : JanitorSettings :=
  _load_settings
    {| raw_root := None; raw_scan_interval_seconds := None;
       raw_min_file_age_seconds := None; raw_dry_run := None;
       raw_ignore := None; raw_protected_folders := None;
       raw_folders := Some {[ "images" := "Pics" ]} |}.

Definition tree_notes : tree := {[ "notes.txt" := File (StatOk 0) ]}.

Lemma missing_other_folder_aborts_scan_witness :
  folders settings_without_other !! "docs" = None /\
  folders settings_without_other !! "other" = None /\
  folder_for (folders settings_without_other) "docs" = Raise (KeyError "other") /\
  passes_checks glob settings_without_other 1000 tree_notes "notes.txt" /\
  scan_entry glob settings_without_other 1000 (tree_notes, no_report) "notes.txt"
    = Raise (KeyError "other") /\
  _scan_once glob settings_without_other 1000 tree_notes = Raise (KeyError "other") /\
  run_forever_loop glob settings_without_other 1 1000 tree_notes
    = Raise (KeyError "other").
Proof.
  destruct missing_other_folder_aborts_scan
    as (Hboth & _ & _ & Hentry & Hscan & Hloop & _).
  assert (H1 : folders settings_without_other !! "docs" = None)
    by (vm_compute; reflexivity).
  assert (H2 : folders settings_without_other !! "other" = None)
    by (vm_compute; reflexivity).
  assert (H3 : passes_checks glob settings_without_other 1000 tree_notes "notes.txt").
  { split_and!; [vm_compute; reflexivity..|].
    apply (bool_decide_eq_false_1 _). vm_compute. reflexivity. }
  pose proof (Hentry glob settings_without_other 1000%Z tree_notes no_report
                "notes.txt" H2 H3) as H4.
  pose proof (Hscan glob settings_without_other 1000%Z [] [] "notes.txt"
                (tree_notes, no_report) (tree_notes, no_report)
                (KeyError "other") eq_refl H4) as H5.
  assert (H6 : _scan_once glob settings_without_other 1000 tree_notes
               = Raise (KeyError "other")) by (vm_compute; reflexivity).
  exact (conj H1 (conj H2 (conj (Hboth _ _ H1 H2) (conj H3 (conj H4 (conj H6
          (Hloop glob settings_without_other 0%nat 1000%Z tree_notes _ H6))))))).
Defined.

(** *** Dry run against live run *)

Lemma listing_file (fs : tree) (name : string) (st : stat_result) :
  fs !! name = Some (File st) -> listing fs name = ∅.
Proof. unfold listing. by intros ->. Qed.



Section DryVsLive.

Variable fnmatch : string -> string -> bool.
Variable cfg : JanitorSettings.
Variable now : Z.





End DryVsLive.

(** No configured folder name is taken by a regular file of the root. *)
Definition is_file (fs : tree) (name : string) : bool :=
  match fs !! name with
  | Some (File _) => true
  | _ => false
  end.

Definition folders_free (cfg : JanitorSettings) (fs : tree) : Prop :=
  map_Forall (fun _ folder => is_file fs folder = false) (folders cfg).

Lemma ensure_dir_spec (now : Z) (fs fs' : tree) (folder : string) :
  ensure_dir now fs folder = Ok fs' ->
  is_dir fs' folder = true /\
  (forall f, is_dir fs f = true -> is_dir fs' f = true).
Proof.
  unfold ensure_dir, is_dir.
  destruct (fs !! folder) as [[st|mt ch]|] eqn:Hf; intros [= <-].
  - by rewrite Hf.
  - rewrite lookup_insert_eq. split; [done|]. intros f.
    destruct (decide (f = folder)) as [->|Hne].
    + by rewrite lookup_insert_eq.
    + by rewrite lookup_insert_ne.
Qed.

Lemma ensure_dirs_spec (now : Z) (l : list string) (fs fs' : tree) :
  foldl (fun acc folder => fs1 ← acc; ensure_dir now fs1 folder) (Ok fs) l = Ok fs' ->
  (forall f, f ∈ l -> is_dir fs' f = true) /\
  (forall f, is_dir fs f = true -> is_dir fs' f = true).
Proof.
  revert fs. induction l as [|a l IH]; intros fs; simpl.
  - intros [= <-]. split; [|done]. intros f Hf. by apply elem_of_nil in Hf.
  - destruct (ensure_dir now fs a) as [fs1|e] eqn:Ha.
    + intros [Hl Hkeep]%IH. apply ensure_dir_spec in Ha as [Hdir Hdirs].
      split.
      * intros f [->|Hf]%elem_of_cons; [by apply Hkeep|by apply Hl].
      * intros f Hf. by apply Hkeep, Hdirs.
    + intros H. exfalso. clear -H.
      induction l as [|b l IHl]; simpl in H; [done|by apply IHl].
Qed.




(** A regular file named like the folder for documents, and an old text
    file. *)
Definition tree_blocked : tree :=
  <["Docs" := File (StatOk 0)]> (<["a.txt" := File (StatOk 0)]> ∅).



End JanitorFacts.

(** ** The Dev Git Overview *)

Module FlagFacts.

Import GitOverview.

Lemma flag_list_stale (at_ now_utc dirty : Z) :
  "stale>7d" ∈ flag_list at_ now_utc dirty <-> (now_utc - at_ > timedelta_days 7)%Z.
Proof.
  unfold flag_list.
  destruct (bool_decide (now_utc - at_ > timedelta_days 7)%Z) eqn:H1;
    [apply bool_decide_eq_true in H1 | apply bool_decide_eq_false in H1];
    destruct (_ && _); simpl; rewrite ?elem_of_cons, ?elem_of_nil;
    intuition (first [lia | discriminate]).
Qed.

Lemma flag_list_dirty (at_ now_utc dirty : Z) :
  "dirty+24h" ∈ flag_list at_ now_utc dirty <->
  (now_utc - at_ > timedelta_hours 24)%Z /\ (dirty > 0)%Z.
Proof.
  unfold flag_list.
  destruct (bool_decide (now_utc - at_ > timedelta_hours 24)%Z) eqn:H1;
    [apply bool_decide_eq_true in H1 | apply bool_decide_eq_false in H1];
    (destruct (bool_decide (dirty > 0)%Z) eqn:H2;
     [apply bool_decide_eq_true in H2 | apply bool_decide_eq_false in H2]);
    destruct (bool_decide _); simpl; rewrite ?elem_of_cons, ?elem_of_nil;
    intuition (first [lia | discriminate]).
Qed.

(** A status whose last push is at [at_]. *)
Definition status_at (at_ : option Z) (dirty : Z) : RepoStatus :=
  {| project := "alfred"; branch := "main"; last_push := "";
     last_push_at := at_; dirty_count := dirty |}.

(** C7. The two flags have strict boundaries: an age of exactly seven days
    does not give "stale>7d", an age of exactly 24 hours does not give
    "dirty+24h", which also needs a positive dirty count; both flags are
    joined by a comma, no flag gives a dash, and a null timestamp gives a
    dash whatever the clock and the dirty count are. *)
Theorem build_flags_strict_boundaries :
  (forall (status : RepoStatus) (now_utc : Z),
      last_push_at status = None -> _build_flags status now_utc = "-") /\
  (forall (status : RepoStatus) (now_utc at_ : Z),
      last_push_at status = Some at_ ->
      _build_flags status now_utc =
      match bool_decide (now_utc - at_ > timedelta_days 7)%Z,
            bool_decide (now_utc - at_ > timedelta_hours 24)%Z
            && bool_decide (dirty_count status > 0)%Z with
      | true, true => "stale>7d, dirty+24h"
      | true, false => "stale>7d"
      | false, true => "dirty+24h"
      | false, false => "-"
      end) /\
  (forall at_ now_utc dirty : Z,
      "stale>7d" ∈ flag_list at_ now_utc dirty <->
      (now_utc - at_ > timedelta_days 7)%Z) /\
  (forall at_ now_utc dirty : Z,
      "dirty+24h" ∈ flag_list at_ now_utc dirty <->
      (now_utc - at_ > timedelta_hours 24)%Z /\ (dirty > 0)%Z) /\
  (forall at_ dirty : Z,
      "stale>7d" ∉ flag_list at_ (at_ + timedelta_days 7) dirty) /\
  (forall at_ dirty : Z,
      "dirty+24h" ∉ flag_list at_ (at_ + timedelta_hours 24) dirty) /\
  (forall at_ : Z,
      _build_flags (status_at (Some at_) 3) (at_ + timedelta_days 7) = "dirty+24h" /\
      _build_flags (status_at (Some at_) 3) (at_ + timedelta_days 7 + 1)
        = "stale>7d, dirty+24h" /\
      _build_flags (status_at (Some at_) 3) (at_ + timedelta_hours 24) = "-" /\
      _build_flags (status_at (Some at_) 3) (at_ + timedelta_hours 24 + 1)
        = "dirty+24h" /\
      _build_flags (status_at (Some at_) 0) (at_ + timedelta_days 7 + 1)
        = "stale>7d").
Proof.
  assert (Hcases : forall (status : RepoStatus) (now_utc at_ : Z),
      last_push_at status = Some at_ ->
      _build_flags status now_utc =
      match bool_decide (now_utc - at_ > timedelta_days 7)%Z,
            bool_decide (now_utc - at_ > timedelta_hours 24)%Z
            && bool_decide (dirty_count status > 0)%Z with
      | true, true => "stale>7d, dirty+24h"
      | true, false => "stale>7d"
      | false, true => "dirty+24h"
      | false, false => "-"
      end).
  { intros status now_utc at_ H. unfold _build_flags, flag_list. rewrite H.
    by destruct (bool_decide _), (bool_decide _ && bool_decide _). }
  split_and!.
  - intros status now_utc H. unfold _build_flags. by rewrite H.
  - exact Hcases.
  - apply flag_list_stale.
  - apply flag_list_dirty.
  - intros at_ dirty. rewrite flag_list_stale. lia.
  - intros at_ dirty. rewrite flag_list_dirty. lia.
  - intros at_. unfold timedelta_days, timedelta_hours.
    split_and!;
      [rewrite (Hcases (status_at (Some at_) 3) _ at_ eq_refl)..
      |rewrite (Hcases (status_at (Some at_) 0) _ at_ eq_refl)];
      simpl; unfold timedelta_days, timedelta_hours;
      repeat (case_bool_decide; try lia); done.
Qed.

Lemma build_flags_strict_boundaries_witness :
  last_push_at (status_at None 3) = None /\
  _build_flags (status_at None 3) 1000 = "-" /\
  last_push_at (status_at (Some 0%Z) 3) = Some 0%Z /\
  _build_flags (status_at (Some 0%Z) 3) (timedelta_hours 48) = "dirty+24h".
Proof.
  destruct build_flags_strict_boundaries as (Hnull & Hcases & _).
  exact (conj eq_refl (conj (Hnull (status_at None 3) 1000%Z eq_refl)
          (conj eq_refl (Hcases (status_at (Some 0%Z) 3) (timedelta_hours 48) 0%Z eq_refl)))).
Defined.

End FlagFacts.

Module LastPushFacts.

Import GitOverview.

(** A reflog line that the loop takes for a push: it has a ["|"] and its
    message, lowercased, holds "update by push". *)
Definition is_push_line (line : string) : bool :=
  Str.has_char "|" line &&
  Str.contains "update by push" (Str.lower (snd (Str.split_once "|" line))).

(** The timestamp field of a reflog line. *)
Definition when_of (line : string) : string := fst (Str.split_once "|" line).

(** The lines of the reflog query; none when the query fails. *)
Definition reflog_lines (repo : git) (upstream : string) : list string :=
  match _run_git repo (reflog_args upstream) with
  | Some text => Str.splitlines_go None text
  | None => []
  end.

Lemma first_push_cons (line : string) (rest : list string) :
  first_push (line :: rest) =
  if is_push_line line then Some (when_of line) else first_push rest.
Proof.
  simpl. unfold is_push_line, when_of.
  destruct (Str.has_char "|" line); simpl; [|done].
  destruct (Str.split_once "|" line) as [w m]. simpl.
  by destruct (Str.contains _ _).
Qed.

(** The first push line wins. *)
Lemma first_push_first (before after : list string) (line : string) :
  (forall x, x ∈ before -> is_push_line x = false) ->
  is_push_line line = true ->
  first_push (before ++ line :: after) = Some (when_of line).
Proof.
  intros Hbefore Hline. induction before as [|x before IH].
  - simpl app. by rewrite first_push_cons, Hline.
  - change ((x :: before) ++ line :: after) with (x :: (before ++ line :: after)).
    rewrite first_push_cons, Hbefore by (by left).
    apply IH. intros y Hy. apply Hbefore. by right.
Qed.

Lemma first_push_none (lines : list string) :
  (forall x, x ∈ lines -> is_push_line x = false) -> first_push lines = None.
Proof.
  induction lines as [|x lines IH]; intros H; [done|].
  rewrite first_push_cons, H by (by left). apply IH.
  intros y Hy. apply H. by right.
Qed.

Lemma first_push_some (lines : list string) (when : string) :
  first_push lines = Some when ->
  exists before line after,
    lines = before ++ line :: after /\
    (forall x, x ∈ before -> is_push_line x = false) /\
    is_push_line line = true /\ when = when_of line.
Proof.
  induction lines as [|x lines IH]; [done|].
  rewrite first_push_cons. destruct (is_push_line x) eqn:Hx.
  - intros [= <-]. exists [], x, lines. split_and!; try done.
    intros y Hy. by apply elem_of_nil in Hy.
  - intros (before & line & after & -> & Hb & Hl & ->)%IH.
    exists (x :: before), line, after. split_and!; try done.
    intros y [->|Hy]%elem_of_cons; [done|by apply Hb].
Qed.

Section LastPush.

Variable fromisoformat : string -> option parsed.

(** The push sought by [_resolve_last_push] is the first push line of the
    reflog lines. *)
Lemma resolve_with_upstream (repo : git) (upstream : string) :
  _run_git repo upstream_args = Some upstream ->
  _resolve_last_push fromisoformat repo =
  match first_push (reflog_lines repo upstream) with
  | Some when => (when, _parse_git_datetime fromisoformat when)
  | None =>
      match _run_git repo tip_args with
      | Some d =>
          if decide (d = "") then ("unknown", None)
          else (d, _parse_git_datetime fromisoformat d)
      | None => ("unknown", None)
      end
  end.
Proof.
  intros Hu. unfold _resolve_last_push, reflog_lines. rewrite Hu.
  destruct (_run_git repo (reflog_args upstream)) as [text|]; [|done].
  destruct (decide (text = "")) as [->|]; done.
Qed.

End LastPush.

(** A repository with an upstream whose reflog shows a fetch only and whose
    tip cannot be read. *)
Definition repo_fetch_only : git := fun args =>
  if decide (args = upstream_args) then Some (0%Z, "origin/main")
  else if decide (args = reflog_args "origin/main")
       then Some (0%Z, "2024-05-01T10:00:00+02:00|fetch origin: fast-forward")
  else Some (128%Z, "").

(** A repository whose upstream reflog shows a fetch, then two pushes. *)
Definition repo_pushed : git := fun args =>
  if decide (args = upstream_args) then Some (0%Z, "origin/main")
  else if decide (args = reflog_args "origin/main")
       then Some (0%Z,
         "2024-05-03T09:00:00+02:00|fetch origin: fast-forward" +:+ String "010"
         ("2024-05-02T08:00:00+02:00|Update By Push" +:+ String "010"
          "2024-05-01T10:00:00+02:00|update by push"))
  else if decide (args = tip_args) then Some (0%Z, "2024-05-03T08:59:00+02:00")
  else Some (128%Z, "").

(** A parser that knows no date: every text is a [ValueError]. *)
Definition no_date : string -> option parsed := fun _ => None.

(** C4, as the code has it.  Without an answer to the upstream query the
    result is "no upstream" and null.  With an upstream, the first line of
    the reflog output (at most 100 entries, newest first) that has a "|" and
    whose message holds "update by push" in any case gives the result;
    without such a line (the query failed, printed nothing, or printed other
    entries only) the commit date of the upstream tip gives it; and when
    that query fails or prints nothing the result is "unknown" and null. *)
Theorem resolve_last_push_precedence
    (fromisoformat : string -> option parsed) (repo : git) :
  (_run_git repo upstream_args = None ->
   _resolve_last_push fromisoformat repo = ("no upstream", None)) /\
  (forall (upstream : string) (before after : list string) (line : string),
      _run_git repo upstream_args = Some upstream ->
      reflog_lines repo upstream = before ++ line :: after ->
      (forall x, x ∈ before -> is_push_line x = false) ->
      is_push_line line = true ->
      _resolve_last_push fromisoformat repo
        = (when_of line, _parse_git_datetime fromisoformat (when_of line))) /\
  (forall (upstream d : string),
      _run_git repo upstream_args = Some upstream ->
      (forall x, x ∈ reflog_lines repo upstream -> is_push_line x = false) ->
      _run_git repo tip_args = Some d -> d <> "" ->
      _resolve_last_push fromisoformat repo
        = (d, _parse_git_datetime fromisoformat d)) /\
  (forall (upstream : string),
      _run_git repo upstream_args = Some upstream ->
      (forall x, x ∈ reflog_lines repo upstream -> is_push_line x = false) ->
      _run_git repo tip_args = None \/ _run_git repo tip_args = Some "" ->
      _resolve_last_push fromisoformat repo = ("unknown", None)) /\
  (forall (upstream : string),
      _run_git repo upstream_args = Some upstream ->
      _run_git repo (reflog_args upstream) = None ->
      _run_git repo tip_args = None ->
      _resolve_last_push fromisoformat repo = ("unknown", None)) /\
  reflog_args "origin/main"
    = [ "reflog"; "show"; "--date=iso-strict"; "--format=%cd|%gs"; "origin/main";
        "-n"; "100" ].
Proof.
  split_and!.
  - intros H. unfold _resolve_last_push. by rewrite H.
  - intros upstream before after line Hu Hlines Hbefore Hline.
    rewrite (resolve_with_upstream _ _ _ Hu), Hlines.
    by rewrite first_push_first.
  - intros upstream d Hu Hnone Htip Hd.
    rewrite (resolve_with_upstream _ _ _ Hu), first_push_none, Htip by done.
    by rewrite decide_False.
  - intros upstream Hu Hnone Htip.
    rewrite (resolve_with_upstream _ _ _ Hu), first_push_none by done.
    by destruct Htip as [-> | ->].
  - intros upstream Hu Hreflog Htip.
    rewrite (resolve_with_upstream _ _ _ Hu). unfold reflog_lines.
    by rewrite Hreflog, Htip.
  - reflexivity.
Qed.

Lemma resolve_last_push_precedence_witness :
  _run_git repo_pushed upstream_args = Some "origin/main" /\
  reflog_lines repo_pushed "origin/main"
    = [ "2024-05-03T09:00:00+02:00|fetch origin: fast-forward" ]
      ++ "2024-05-02T08:00:00+02:00|Update By Push"
      :: [ "2024-05-01T10:00:00+02:00|update by push" ] /\
  _resolve_last_push no_date repo_pushed = ("2024-05-02T08:00:00+02:00", None) /\
  _run_git repo_fetch_only tip_args = None /\
  _resolve_last_push no_date repo_fetch_only = ("unknown", None).
Proof.
  destruct (resolve_last_push_precedence no_date repo_pushed) as (_ & Hpush & _).
  destruct (resolve_last_push_precedence no_date repo_fetch_only)
    as (_ & _ & _ & Hunknown & _).
  assert (H1 : _run_git repo_pushed upstream_args = Some "origin/main")
    by (vm_compute; reflexivity).
  assert (H2 : reflog_lines repo_pushed "origin/main"
    = [ "2024-05-03T09:00:00+02:00|fetch origin: fast-forward" ]
      ++ "2024-05-02T08:00:00+02:00|Update By Push"
      :: [ "2024-05-01T10:00:00+02:00|update by push" ])
    by (vm_compute; reflexivity).
  assert (H3 : forall x,
             x ∈ [ "2024-05-03T09:00:00+02:00|fetch origin: fast-forward" ] ->
             is_push_line x = false).
  { intros x Hx. apply list_elem_of_singleton in Hx as ->. vm_compute. reflexivity. }
  assert (H4 : is_push_line "2024-05-02T08:00:00+02:00|Update By Push" = true)
    by (vm_compute; reflexivity).
  assert (H5 : _run_git repo_fetch_only upstream_args = Some "origin/main")
    by (vm_compute; reflexivity).
  assert (H6 : forall x, x ∈ reflog_lines repo_fetch_only "origin/main" ->
                         is_push_line x = false).
  { intros x Hx.
    assert (Hl : reflog_lines repo_fetch_only "origin/main"
                 = [ "2024-05-01T10:00:00+02:00|fetch origin: fast-forward" ])
      by (vm_compute; reflexivity).
    rewrite Hl in Hx. apply list_elem_of_singleton in Hx as ->.
    vm_compute. reflexivity. }
  assert (H7 : _run_git repo_fetch_only tip_args = None)
    by (vm_compute; reflexivity).
  exact (conj H1 (conj H2 (conj (Hpush _ _ _ _ H1 H2 H3 H4)
          (conj H7 (Hunknown _ H5 H6 (or_introl H7)))))).
Defined.

(** C4 as stated fails: here the upstream exists and the reflog query
    succeeds (it shows a fetch), only the tip query fails, and the result is
    "unknown" with a null timestamp. *)
Lemma unknown_with_successful_reflog_query :
  _run_git repo_fetch_only upstream_args = Some "origin/main" /\
  _run_git repo_fetch_only (reflog_args "origin/main")
    = Some "2024-05-01T10:00:00+02:00|fetch origin: fast-forward" /\
  _run_git repo_fetch_only tip_args = None /\
  _resolve_last_push no_date repo_fetch_only = ("unknown", None).
Proof. split_and!; vm_compute; reflexivity. Qed.

End LastPushFacts.

Module DiscoveryFacts.

Import GitOverview.

(** Induction over a directory and all its sub-directories. *)
Lemma dtree_ind (P : dtree -> Prop) :
  (forall subs, Forall (fun sub => P (snd sub)) subs -> P (DNode subs)) ->
  forall t, P t.
Proof.
  intros H.
  refine (fix go (t : dtree) : P t :=
            match t with
            | DNode subs =>
                H subs ((fix all (l : list (string * dtree))
                           : Forall (fun sub => P (snd sub)) l :=
                           match l with
                           | [] => @List.Forall_nil _ _
                           | sub :: l' =>
                               @List.Forall_cons _ _ sub l' (go (snd sub)) (all l')
                           end) subs)
            end).
Qed.

Lemma distinct_names_subs (subs : list (string * dtree)) :
  distinct_names (DNode subs) ->
  NoDup (map fst subs) /\ Forall (fun sub => distinct_names (snd sub)) subs.
Proof.
  simpl. intros [Hnd Hall]. split; [done|].
  induction subs as [|sub subs IH]; [done|].
  destruct Hall as [Hsub Hall]. constructor; [done|].
  apply IH; [|done]. by apply NoDup_cons in Hnd as [_ ?].
Qed.

Section Walk.

Variable cfg : DevGitOverviewSettings.
Variable root_depth : nat.

Definition depth (p : Path) : Z := (Z.of_nat (length p) - Z.of_nat root_depth)%Z.

(** The walk of a directory: its own visit, then the walks of the kept
    sub-directories. *)
Lemma walk_unfold (current : Path) (subs : list (string * dtree)) :
  walk cfg root_depth current (DNode subs) =
  (current, fst (visit cfg (depth current) (map fst subs))) ::
  flat_map
    (fun sub : string * dtree =>
       if bool_decide (fst sub ∈ snd (visit cfg (depth current) (map fst subs)))
       then walk cfg root_depth (joinpath current (fst sub)) (snd sub)
       else [])
    subs.
Proof. simpl. fold (depth current). by destruct (visit _ _ _). Qed.

(** An element of the walk is the directory itself or lies in the walk of a
    kept sub-directory. *)
Lemma elem_of_walk (current p : Path) (b : bool) (subs : list (string * dtree)) :
  (p, b) ∈ walk cfg root_depth current (DNode subs) <->
  (p = current /\ b = fst (visit cfg (depth current) (map fst subs))) \/
  exists sub, sub ∈ subs /\
    fst sub ∈ snd (visit cfg (depth current) (map fst subs)) /\
    (p, b) ∈ walk cfg root_depth (joinpath current (fst sub)) (snd sub).
Proof.
  rewrite walk_unfold, elem_of_cons. split.
  - intros [[= -> ->]|Hin]; [by left|right].
    apply list_elem_of_In, in_flat_map in Hin as (sub & Hsub & Hin).
    exists sub. case_bool_decide; [|by apply list_elem_of_In, elem_of_nil in Hin].
    split_and!; [by apply list_elem_of_In|done|by apply list_elem_of_In].
  - intros [[-> ->]|(sub & Hsub & Hkeep & Hin)]; [by left|right].
    apply list_elem_of_In, in_flat_map. exists sub.
    split; [by apply list_elem_of_In|].
    rewrite bool_decide_eq_true_2 by done. by apply list_elem_of_In.
Qed.

Lemma visit_cases (d : Z) (dirnames : list string) :
  ((0 <= max_depth cfg /\ max_depth cfg < d)%Z /\
   visit cfg d dirnames = (false, [])) \/
  (~ (0 <= max_depth cfg /\ max_depth cfg < d)%Z /\ ".git" ∈ dirnames /\
   visit cfg d dirnames = (true, [])) \/
  (~ (0 <= max_depth cfg /\ max_depth cfg < d)%Z /\ (".git" ∉ dirnames) /\
   visit cfg d dirnames
     = (false, filter (fun name => name ∉ ignore_dirs cfg) dirnames)).
Proof.
  unfold visit.
  destruct (bool_decide (0 <= max_depth cfg)%Z) eqn:H1;
    [apply bool_decide_eq_true in H1 | apply bool_decide_eq_false in H1];
    (destruct (bool_decide (max_depth cfg < d)%Z) eqn:H2;
     [apply bool_decide_eq_true in H2 | apply bool_decide_eq_false in H2]);
    simpl; try (left; split; [lia|done]);
    right; (case_bool_decide as Hgit; [left|right]); (split_and!; [lia|done..]).
Qed.

Lemma visit_pruned (d : Z) (dirnames : list string) (name : string) :
  name ∈ snd (visit cfg d dirnames) ->
  ~ (0 <= max_depth cfg /\ max_depth cfg < d)%Z /\
  (".git" ∉ dirnames) /\ name ∈ dirnames /\ name ∉ ignore_dirs cfg.
Proof.
  destruct (visit_cases d dirnames)
    as [(_ & ->)|[(_ & _ & ->)|(Hnot & Hgit & ->)]]; simpl.
  - intros H. by apply elem_of_nil in H.
  - intros H. by apply elem_of_nil in H.
  - intros [Hign Hin]%list_elem_of_filter. done.
Qed.

Lemma visit_recorded (d : Z) (dirnames : list string) :
  fst (visit cfg d dirnames) = true ->
  ~ (0 <= max_depth cfg /\ max_depth cfg < d)%Z /\
  ".git" ∈ dirnames /\ snd (visit cfg d dirnames) = [].
Proof.
  destruct (visit_cases d dirnames)
    as [(_ & ->)|[(Hnot & Hgit & ->)|(_ & _ & ->)]]; simpl; done.
Qed.

Lemma depth_joinpath (current : Path) (name : string) :
  depth (joinpath current name) = (depth current + 1)%Z.
Proof. unfold depth, joinpath. rewrite length_app. simpl. lia. Qed.

(** Every directory of the walk lies below the start, along names that are
    not ignored. *)
Lemma walk_below (t : dtree) (current p : Path) (b : bool) :
  (p, b) ∈ walk cfg root_depth current t ->
  exists rel, p = current ++ rel /\ forall n, n ∈ rel -> n ∉ ignore_dirs cfg.
Proof.
  revert current. induction t as [subs IH] using dtree_ind. intros current.
  rewrite elem_of_walk.
  intros [[-> _]|(sub & Hsub & Hkeep & Hin)].
  - exists []. rewrite app_nil_r. split; [done|]. intros n Hn.
    by apply elem_of_nil in Hn.
  - rewrite Forall_forall in IH.
    apply (IH sub Hsub) in Hin as (rel & -> & Hrel).
    apply visit_pruned in Hkeep as (_ & _ & _ & Hign).
    exists (fst sub :: rel). unfold joinpath. rewrite <- app_assoc. split; [done|].
    intros n [->|Hn]%elem_of_cons; [done|by apply Hrel].
Qed.

(** A recorded directory is not deeper than [max_depth]. *)
Lemma walk_recorded_depth (t : dtree) (current p : Path) :
  (p, true) ∈ walk cfg root_depth current t ->
  (0 <= max_depth cfg)%Z -> (depth p <= max_depth cfg)%Z.
Proof.
  revert current. induction t as [subs IH] using dtree_ind. intros current.
  rewrite elem_of_walk.
  intros [[-> Hrec]|(sub & Hsub & _ & Hin)] Hmax.
  - symmetry in Hrec. apply visit_recorded in Hrec as (Hnot & _). lia.
  - rewrite Forall_forall in IH. by eapply IH.
Qed.

(** The walk enters no directory deeper than [max_depth + 1]. *)
Lemma walk_visited_depth (t : dtree) (current p : Path) (b : bool) :
  (p, b) ∈ walk cfg root_depth current t ->
  (0 <= max_depth cfg)%Z -> (depth current <= max_depth cfg + 1)%Z ->
  (depth p <= max_depth cfg + 1)%Z.
Proof.
  revert current. induction t as [subs IH] using dtree_ind. intros current.
  rewrite elem_of_walk.
  intros [[-> _]|(sub & Hsub & Hkeep & Hin)] Hmax Hcur; [done|].
  rewrite Forall_forall in IH. eapply IH; [done..|].
  apply visit_pruned in Hkeep as (Hnot & _). rewrite depth_joinpath. lia.
Qed.

(** Below a recorded directory the walk enters nothing. *)
Lemma walk_recorded_leaf (t : dtree) (current r v : Path) (b : bool) :
  distinct_names t ->
  (r, true) ∈ walk cfg root_depth current t ->
  (v, b) ∈ walk cfg root_depth current t ->
  r `prefix_of` v -> v = r.
Proof.
  revert current. induction t as [subs IH] using dtree_ind.
  intros current [Hnd Hall]%distinct_names_subs.
  rewrite !elem_of_walk.
  intros [[-> Hrec]|(sub & Hsub & Hkeep & Hr)] [[-> _]|(sub' & Hsub' & Hkeep' & Hv)] Hpre.
  - done.
  - symmetry in Hrec. apply visit_recorded in Hrec as (_ & _ & Hnil).
    rewrite Hnil in Hkeep'. by apply elem_of_nil in Hkeep'.
  - apply walk_below in Hr as (rel & -> & _).
    apply prefix_length in Hpre. unfold joinpath in Hpre.
    rewrite !length_app in Hpre. simpl in Hpre. lia.
  - pose proof Hr as (rel & Hrel & _)%walk_below.
    pose proof Hv as (rel' & Hrel' & _)%walk_below.
    assert (fst sub = fst sub') as Hfst.
    { subst r v. unfold joinpath in Hpre. rewrite <- !app_assoc in Hpre.
      apply prefix_app_inv in Hpre. simpl in Hpre.
      by apply prefix_cons_inv_1 in Hpre. }
    assert (sub = sub') as <-.
    { apply list_elem_of_lookup in Hsub as [i Hi].
      apply list_elem_of_lookup in Hsub' as [j Hj].
      assert (i = j) as ->; [|congruence].
      eapply NoDup_lookup; [exact Hnd| |].
      - by rewrite list_lookup_fmap, Hi.
      - by rewrite list_lookup_fmap, Hj, Hfst. }
    rewrite Forall_forall in IH, Hall. eapply IH; eauto.
Qed.

End Walk.

Lemma elem_of_discovered (cfg : DevGitOverviewSettings) (t : dtree) (r : Path) :
  r ∈ _discover_repositories cfg t <->
  (r, true) ∈ walk cfg (length (root cfg)) (root cfg) t.
Proof.
  unfold _discover_repositories. rewrite list_elem_of_fmap. split.
  - intros ([p b] & -> & [Hb Hin]%list_elem_of_filter). simpl in *. by subst b.
  - intros Hin. exists (r, true). split; [done|]. by apply list_elem_of_filter.
Qed.

Lemma elem_of_visited (cfg : DevGitOverviewSettings) (t : dtree) (v : Path) :
  v ∈ visited cfg t <->
  exists b, (v, b) ∈ walk cfg (length (root cfg)) (root cfg) t.
Proof.
  unfold visited. rewrite list_elem_of_fmap. split.
  - intros ([p b] & -> & Hin). by exists b.
  - intros [b Hin]. by exists (v, b).
Qed.

(** The default settings of the feature, with the given depth bound. *)
Definition settings_with_depth (d : Z) : DevGitOverviewSettings :=
  {| root := ["/"; "dev_projects"];
     scan_interval_seconds := 900;
     max_depth := d;
     ignore_dirs := [ "node_modules"; ".venv"; "venv"; "__pycache__" ] |}.

(** [a/b] below the root, no repository anywhere. *)
Definition tree_nested : dtree := DNode [ ("a", DNode [ ("b", DNode []) ]) ].

(** A repository [proj] with a nested [vendor/.git], next to
    [node_modules/pkg/.git]. *)
Definition tree_repos : dtree :=
  DNode [ ("proj", DNode [ (".git", DNode []);
                           ("vendor", DNode [ (".git", DNode []) ]) ]);
          ("node_modules", DNode [ ("pkg", DNode [ (".git", DNode []) ]) ]) ].

(** C6, as the code has it.  In a tree whose directories have distinct
    names, the walk enters nothing below a directory it recorded as a
    repository.  With a non-negative [max_depth] no repository deeper than
    [max_depth] is recorded and no directory deeper than [max_depth + 1] is
    entered: the directories at depth [max_depth + 1] are still listed by the
    walk, and pruned there.  Every directory entered lies below the root
    along names that are not in [ignore_dirs]. *)
Theorem discovery_stops_at_repositories_and_depth
    (cfg : DevGitOverviewSettings) (t : dtree) :
  (distinct_names t ->
   forall r v : Path,
     r ∈ _discover_repositories cfg t -> v ∈ visited cfg t ->
     r `prefix_of` v -> v = r) /\
  ((0 <= max_depth cfg)%Z ->
   forall r : Path,
     r ∈ _discover_repositories cfg t -> (depth_of cfg r <= max_depth cfg)%Z) /\
  ((0 <= max_depth cfg)%Z ->
   forall v : Path,
     v ∈ visited cfg t -> (depth_of cfg v <= max_depth cfg + 1)%Z) /\
  (forall v : Path,
     v ∈ visited cfg t ->
     exists rel, v = root cfg ++ rel /\ forall n, n ∈ rel -> n ∉ ignore_dirs cfg) /\
  (forall r : Path, r ∈ _discover_repositories cfg t -> r ∈ visited cfg t).
Proof.
  split_and!.
  - intros Hdist r v Hr%elem_of_discovered [b Hv]%elem_of_visited Hpre.
    by eapply walk_recorded_leaf.
  - intros Hmax r Hr%elem_of_discovered.
    by eapply (walk_recorded_depth cfg (length (root cfg))).
  - intros Hmax v [b Hv]%elem_of_visited.
    eapply (walk_visited_depth cfg (length (root cfg))); [done..|].
    unfold depth. lia.
  - intros v [b Hv]%elem_of_visited. by eapply walk_below.
  - intros r Hr%elem_of_discovered. apply elem_of_visited. by exists true.
Qed.

Lemma discovery_stops_at_repositories_and_depth_witness :
  distinct_names tree_repos /\
  _discover_repositories (settings_with_depth 6) tree_repos
    = [ ["/"; "dev_projects"; "proj"] ] /\
  visited (settings_with_depth 6) tree_repos
    = [ ["/"; "dev_projects"]; ["/"; "dev_projects"; "proj"] ] /\
  (0 <= max_depth (settings_with_depth 6))%Z /\
  (depth_of (settings_with_depth 6) ["/"; "dev_projects"; "proj"]
   <= max_depth (settings_with_depth 6))%Z /\
  (forall v : Path,
      v ∈ visited (settings_with_depth 6) tree_repos ->
      ["/"; "dev_projects"; "proj"] `prefix_of` v ->
      v = ["/"; "dev_projects"; "proj"]).
Proof.
  destruct (discovery_stops_at_repositories_and_depth (settings_with_depth 6) tree_repos)
    as (Hleaf & Hdepth & _).
  assert (H1 : distinct_names tree_repos).
  { simpl. split_and!; try done;
      apply (bool_decide_eq_true_1 _); vm_compute; reflexivity. }
  assert (H2 : _discover_repositories (settings_with_depth 6) tree_repos
               = [ ["/"; "dev_projects"; "proj"] ]) by (vm_compute; reflexivity).
  assert (H3 : ["/"; "dev_projects"; "proj"]
               ∈ _discover_repositories (settings_with_depth 6) tree_repos)
    by (rewrite H2; apply list_elem_of_singleton; reflexivity).
  assert (H4 : (0 <= max_depth (settings_with_depth 6))%Z) by (simpl; lia).
  exact (conj H1 (conj H2 (conj eq_refl (conj H4 (conj (Hdepth H4 _ H3)
          (fun v Hv Hpre => Hleaf H1 _ v H3 Hv Hpre)))))).
Defined.

(** C6 as stated fails: with [max_depth = 0] the walk still enters [a], at
    depth 1, before the loop body prunes there. *)
Lemma walk_enters_one_level_past_max_depth :
  max_depth (settings_with_depth 0) = 0%Z /\
  visited (settings_with_depth 0) tree_nested
    = [ ["/"; "dev_projects"]; ["/"; "dev_projects"; "a"] ] /\
  depth_of (settings_with_depth 0) ["/"; "dev_projects"; "a"] = 1%Z /\
  ~ (forall v : Path,
        v ∈ visited (settings_with_depth 0) tree_nested ->
        (depth_of (settings_with_depth 0) v <= max_depth (settings_with_depth 0))%Z).
Proof.
  split_and!; [reflexivity | vm_compute; reflexivity | reflexivity |].
  intros H. specialize (H ["/"; "dev_projects"; "a"]).
  assert (Hin : ["/"; "dev_projects"; "a"]
                ∈ visited (settings_with_depth 0) tree_nested).
  { apply (bool_decide_eq_true_1 _). vm_compute. reflexivity. }
  apply H in Hin. vm_compute in Hin. by apply Hin.
Qed.

End DiscoveryFacts.

(** ** The supervisor *)

Module SupervisorFacts.

Import Supervisor.

Lemma crash_line_ne_all_stopped (key msg : string) : crash_line key msg <> all_stopped.
Proof. unfold crash_line, all_stopped. cbv [String.append]. congruence. Qed.

(** The features that are still to be started. *)
Definition pending_of (p : phase) : list string :=
  match p with
  | Starting pending | Announcing _ pending => pending
  | Polling | Ended _ => []
  end.

Definition running (p : phase) : Prop :=
  match p with
  | Ended _ => False
  | _ => True
  end.

(** What holds of every state the supervisor reaches from
    [main_start enabled]. *)
Record invariant (enabled : list string) (s : state) : Prop := {
  crashes_logged :
    forall w, w ∈ workers s -> is_alive w = false ->
      exists msg, crash_line (feature_key w) msg ∈ log s;
  status_zero :
    forall e, main_phase s = Ended e -> exit_status e = 0%Z;
  stopped_last :
    all_stopped ∈ log s ->
    main_phase s = Ended Returned /\
    (exists before, log s = before ++ [all_stopped] /\ all_stopped ∉ before) /\
    Forall (fun w => is_alive w = false) (workers s) /\
    feature_key <$> workers s = enabled;
  started :
    running (main_phase s) ->
    (all_stopped ∉ log s) /\
    (feature_key <$> workers s) ++ pending_of (main_phase s) = enabled
}.

Lemma invariant_main_start (enabled : list string) :
  invariant enabled (main_start enabled).
Proof.
  unfold main_start. destruct enabled as [|key enabled].
  - split; simpl.
    + intros w Hw. by apply elem_of_nil in Hw.
    + by intros e [= <-].
    + intros [[=]|H]%elem_of_cons. by apply elem_of_nil in H.
    + done.
  - destruct (List.find _ _) as [bad|]; split; simpl;
      try (intros w Hw; by apply elem_of_nil in Hw);
      try (by intros e [= <-]); try done.
    + intros [[=]|H]%elem_of_cons. by apply elem_of_nil in H.
    + intros H. by apply elem_of_nil in H.
    + intros _. split; [|done]. intros H. by apply elem_of_nil in H.
Qed.

Lemma not_stopped_snoc (l : list line) (x : line) :
  all_stopped ∉ l -> x <> all_stopped -> all_stopped ∉ l ++ [x].
Proof.
  intros Hl Hx [H|H]%elem_of_app; [done|].
  apply list_elem_of_singleton in H. by apply Hx.
Qed.

Lemma crashes_logged_snoc (s : state) (x : line) (w : worker) :
  (exists msg, crash_line (feature_key w) msg ∈ log s) ->
  exists msg, crash_line (feature_key w) msg ∈ log s ++ [x].
Proof. intros [msg Hmsg]. exists msg. apply elem_of_app. by left. Qed.

(** A crash of a worker while the supervisor runs. *)
Lemma invariant_worker_raises (enabled : list string) (s : state)
    (i : nat) (msg : string) :
  invariant enabled s -> running (main_phase s) ->
  invariant enabled (worker_raises i msg s).
Proof.
  intros Hinv Hrun. unfold worker_raises.
  destruct (workers s !! i) as [w|] eqn:Hw; [|done].
  destruct (is_alive w) eqn:Halive; [|done].
  destruct Hinv as [Hcrash Hstatus Hstopped Hstarted].
  destruct (Hstarted Hrun) as [Hnot Hkeys].
  assert (Hkeep : feature_key <$>
            <[i := {| feature_key := feature_key w; is_alive := false |}]>
              (workers s) = feature_key <$> workers s).
  { rewrite list_fmap_insert. simpl. apply list_insert_id.
    by rewrite list_lookup_fmap, Hw. }
  split; simpl.
  - intros w' Hw' Hdead. apply list_elem_of_lookup in Hw' as [j Hj].
    destruct (decide (j = i)) as [->|Hji].
    + rewrite list_lookup_insert_eq in Hj by (by eapply lookup_lt_Some).
      injection Hj as <-. exists msg. apply elem_of_app. right.
      by apply list_elem_of_singleton.
    + rewrite list_lookup_insert_ne in Hj by done.
      apply crashes_logged_snoc, Hcrash; [by eapply list_elem_of_lookup_2|done].
  - done.
  - intros H. exfalso. revert H.
    apply not_stopped_snoc; [done|apply crash_line_ne_all_stopped].
  - intros _. rewrite Hkeep. split; [|done].
    apply not_stopped_snoc; [done|apply crash_line_ne_all_stopped].
Qed.

(** A termination signal while the supervisor runs. *)
Lemma invariant_on_signal (enabled : list string) (s : state) :
  invariant enabled s -> running (main_phase s) ->
  invariant enabled (on_signal s).
Proof.
  intros [Hcrash Hstatus Hstopped Hstarted] Hrun.
  destruct (Hstarted Hrun) as [Hnot Hkeys].
  split; simpl.
  - intros w Hw Hdead. by apply crashes_logged_snoc, Hcrash.
  - by intros e [= <-].
  - intros H. exfalso. revert H. by apply not_stopped_snoc.
  - done.
Qed.

(** A step of the main thread. *)
Lemma invariant_main_step (enabled : list string) (s : state) :
  invariant enabled s -> invariant enabled (main_step s).
Proof.
  intros Hinv. unfold main_step.
  destruct (main_phase s) as [[|key pending]|key pending| |en] eqn:Hphase;
    [..|exact Hinv];
    destruct Hinv as [Hcrash Hstatus Hstopped Hstarted];
    rewrite Hphase in Hstarted; destruct (Hstarted I) as [Hnot Hkeys];
    simpl in Hkeys.
  - split; simpl; try done.
  - split; simpl; try done.
    + intros w [Hw|Hw]%elem_of_app Hdead; [by apply Hcrash|].
      by apply list_elem_of_singleton in Hw as ->.
    + intros _. split; [done|]. by rewrite fmap_app, <- app_assoc.
  - split; simpl; try done.
    + intros w Hw Hdead. by apply crashes_logged_snoc, Hcrash.
    + intros H. exfalso. revert H. by apply not_stopped_snoc.
    + intros _. split; [by apply not_stopped_snoc|done].
  - destruct (existsb is_alive (workers s)) eqn:Halive.
    { split; try done. by rewrite Hphase. }
    rewrite app_nil_r in Hkeys. split; simpl.
    + intros w Hw Hdead. by apply crashes_logged_snoc, Hcrash.
    + by intros e [= <-].
    + intros _. split_and!; [done|by exists (log s)| |done].
      apply Forall_forall. intros w Hw.
      destruct (is_alive w) eqn:Hw'; [|done].
      assert (existsb is_alive (workers s) = true); [|congruence].
      apply existsb_exists. exists w. split; [by apply list_elem_of_In|done].
    + done.
Qed.

Lemma invariant_step (enabled : list string) (s : state) (e : event) :
  invariant enabled s -> invariant enabled (step s e).
Proof.
  intros Hinv. unfold step.
  destruct (main_phase s) as [pending|key pending| |en] eqn:Hphase;
    [..|exact Hinv];
    (destruct e as [|i msg|];
     [by apply invariant_main_step
     |apply invariant_worker_raises; [done|by rewrite Hphase]
     |apply invariant_on_signal; [done|by rewrite Hphase]]).
Qed.

Lemma invariant_run (enabled : list string) (schedule : list event) :
  invariant enabled (run enabled schedule).
Proof.
  unfold run. generalize (invariant_main_start enabled).
  generalize (main_start enabled). induction schedule as [|e schedule IH];
    intros s Hs; simpl; [done|].
  apply IH. by apply invariant_step.
Qed.

(** One enabled feature: it is started, raises, and the next poll finds no
    worker alive. *)
Definition schedule_crash : list event :=
  [ MainStep; MainStep; WorkerRaises 0 "boom"; MainStep; MainStep ].





End SupervisorFacts.

(** * Further properties of [utils/fs.py] and of the janitor *)

Module FsMore.

Import Classify Janitor JanitorFacts.

Lemma relative_to_Some (p root rel : Path) :
  relative_to p root = Some rel <-> p = root ++ rel.
Proof.
  revert p. induction root as [|r root IH]; intros p.
  - destruct p; simpl; (split; [by intros [= <-] | by intros ->]).
  - destruct p as [|x p]; simpl; [split; intros; discriminate|].
    destruct (decide (x = r)) as [->|Hne].
    + rewrite IH. split; [by intros ->|by intros [= ->]].
    + split; [done|]. intros [= -> _]. done.
Qed.

(** X1. [is_in_top_folder] answers "no" only for a path that lies strictly
    below [root] and whose first part below it is not a top folder: the root
    itself and every path outside the root count as protected. *)
Theorem is_in_top_folder_false_iff (path root : Path) (top_folders : gset string) :
  is_in_top_folder path root top_folders = false <->
  exists part0 rest, path = root ++ part0 :: rest /\ part0 ∉ top_folders.
Proof.
  unfold is_in_top_folder.
  destruct (relative_to path root) as [[|part0 rest]|] eqn:Hrel.
  - apply relative_to_Some in Hrel. split; [done|].
    intros (part0 & rest & Heq & _). rewrite Hrel in Heq.
    by apply app_inv_head in Heq.
  - apply relative_to_Some in Hrel. rewrite bool_decide_eq_false. split.
    + intros Hnot. by exists part0, rest.
    + intros (part0' & rest' & Heq & Hnot). rewrite Hrel in Heq.
      apply app_inv_head in Heq. by injection Heq as -> _.
  - split; [done|]. intros (part0 & rest & Heq & _).
    apply relative_to_Some in Heq. congruence.
Qed.




(** *** [_bootstrap] *)

Lemma ensure_dir_not_file (now : Z) (fs : tree) (folder : string) :
  is_file fs folder = false ->
  exists fs', ensure_dir now fs folder = Ok fs' /\
    (forall n, is_Some (fs !! n) -> fs' !! n = fs !! n) /\
    (forall n, is_file fs' n = is_file fs n).
Proof.
  unfold is_file, ensure_dir. intros Hfile.
  destruct (fs !! folder) as [[st|mt ch]|] eqn:Hf; [done| |].
  - exists fs. by split_and!.
  - eexists. split; [done|]. split.
    + intros n [x Hx]. rewrite lookup_insert_ne; [done|]. intros ->. congruence.
    + intros n. destruct (decide (n = folder)) as [->|Hne].
      * by rewrite lookup_insert_eq, Hf.
      * by rewrite lookup_insert_ne.
Qed.

Lemma ensure_dir_file (now : Z) (fs : tree) (folder : string) :
  is_file fs folder = true -> ensure_dir now fs folder = Raise FileExistsError.
Proof.
  unfold is_file, ensure_dir. by destruct (fs !! folder) as [[st|mt ch]|].
Qed.

Lemma foldl_ensure_raise (now : Z) (l : list string) (e : exn) :
  foldl (fun acc folder => fs1 ← acc; ensure_dir now fs1 folder) (Raise e) l
  = Raise e.
Proof. induction l as [|a l IH]; simpl; [done|apply IH]. Qed.

Lemma ensure_dirs_ok (now : Z) (l : list string) (fs : tree) :
  (forall f, f ∈ l -> is_file fs f = false) ->
  exists fs',
    foldl (fun acc folder => fs1 ← acc; ensure_dir now fs1 folder) (Ok fs) l = Ok fs' /\
    (forall n, is_Some (fs !! n) -> fs' !! n = fs !! n) /\
    (forall n, is_file fs' n = is_file fs n).
Proof.
  revert fs. induction l as [|a l IH]; intros fs Hl; simpl.
  - exists fs. by split_and!.
  - destruct (ensure_dir_not_file now fs a) as (fs1 & -> & Hkeep & Hfiles).
    { apply Hl. by left. }
    destruct (IH fs1) as (fs' & Hfold & Hkeep' & Hfiles').
    { intros f Hf. rewrite Hfiles. apply Hl. by right. }
    exists fs'. split; [done|]. split.
    + intros n Hn. rewrite Hkeep'; [by apply Hkeep|]. by rewrite Hkeep.
    + intros n. by rewrite Hfiles', Hfiles.
Qed.

Lemma ensure_dirs_blocked (now : Z) (l : list string) (fs : tree) (f : string) :
  f ∈ l -> is_file fs f = true ->
  foldl (fun acc folder => fs1 ← acc; ensure_dir now fs1 folder) (Ok fs) l
  = Raise FileExistsError.
Proof.
  revert fs. induction l as [|a l IH]; intros fs Hin Hfile; simpl.
  - by apply elem_of_nil in Hin.
  - destruct (is_file fs a) eqn:Ha.
    + rewrite (ensure_dir_file _ _ _ Ha). apply foldl_ensure_raise.
    + destruct (ensure_dir_not_file now fs a Ha) as (fs1 & -> & _ & Hfiles).
      apply elem_of_cons in Hin as [->|Hin]; [congruence|].
      apply IH; [done|]. by rewrite Hfiles.
Qed.

Lemma ensure_dirs_again (now : Z) (l : list string) (fs : tree) :
  (forall f, f ∈ l -> is_dir fs f = true) ->
  foldl (fun acc folder => fs1 ← acc; ensure_dir now fs1 folder) (Ok fs) l = Ok fs.
Proof.
  induction l as [|a l IH]; intros Hl; simpl; [done|].
  assert (ensure_dir now fs a = Ok fs) as ->.
  { specialize (Hl a (list_elem_of_here _ _)). unfold is_dir in Hl.
    unfold ensure_dir. by destruct (fs !! a) as [[]|]. }
  apply IH. intros f Hf. apply Hl. by right.
Qed.

Lemma elem_of_folder_values (cfg : JanitorSettings) (f : string) :
  f ∈ (map_to_list (folders cfg)).*2 <-> exists k, folders cfg !! k = Some f.
Proof.
  rewrite list_elem_of_fmap. split.
  - intros ([k f'] & -> & H). exists k. by apply elem_of_map_to_list in H.
  - intros [k Hk]. exists (k, f). split; [done|]. by apply elem_of_map_to_list.
Qed.

(** X3. [_bootstrap] succeeds exactly when no configured folder name is
    taken by a regular file of the root, and raises [FileExistsError]
    otherwise.  When it succeeds every configured folder is a directory, the
    entries that were there are unchanged, and a second [_bootstrap] changes
    nothing. *)
Theorem bootstrap_succeeds_iff_folders_free
    (cfg : JanitorSettings) (now : Z) (fs : tree) :
  (folders_free cfg fs <-> exists fs', _bootstrap cfg now fs = Ok fs') /\
  (~ folders_free cfg fs -> _bootstrap cfg now fs = Raise FileExistsError) /\
  (forall fs', _bootstrap cfg now fs = Ok fs' ->
     (forall k f, folders cfg !! k = Some f -> is_dir fs' f = true) /\
     (forall n, is_Some (fs !! n) -> fs' !! n = fs !! n) /\
     (forall later, _bootstrap cfg later fs' = Ok fs')).
Proof.
  assert (Hfree : folders_free cfg fs ->
            forall f, f ∈ (map_to_list (folders cfg)).*2 -> is_file fs f = false).
  { intros H f [k Hk]%elem_of_folder_values. by apply (H k f). }
  assert (Hblocked : ~ folders_free cfg fs ->
            _bootstrap cfg now fs = Raise FileExistsError).
  { intros Hnot. unfold folders_free in Hnot. apply map_not_Forall in Hnot; [|apply _].
    destruct Hnot as (k & f & Hk & Hf). simpl in Hf.
    apply (ensure_dirs_blocked now _ fs f).
    - apply elem_of_folder_values. by exists k.
    - by destruct (is_file fs f). }
  split_and!.
  - split.
    + intros H. destruct (ensure_dirs_ok now _ fs (Hfree H)) as (fs' & Hok & _).
      by exists fs'.
    + intros [fs' Hok]. destruct (decide (folders_free cfg fs)) as [|Hnot]; [done|].
      rewrite (Hblocked Hnot) in Hok. done.
  - exact Hblocked.
  - intros fs' Hok.
    destruct (decide (folders_free cfg fs)) as [H|Hnot];
      [|by rewrite (Hblocked Hnot) in Hok].
    destruct (ensure_dirs_ok now _ fs (Hfree H)) as (fs2 & Hok2 & Hkeep & _).
    unfold _bootstrap in Hok. rewrite Hok2 in Hok. injection Hok as ->.
    pose proof (ensure_dirs_spec now _ fs fs' Hok2) as [Hdirs _].
    assert (Hall : forall k f, folders cfg !! k = Some f -> is_dir fs' f = true).
    { intros k f Hk. apply Hdirs, elem_of_folder_values. by exists k. }
    split_and!; [done|done|].
    intros later. apply ensure_dirs_again.
    intros f [k Hk]%elem_of_folder_values. by eapply Hall.
Qed.

Lemma bootstrap_succeeds_iff_folders_free_witness :
  ~ folders_free default_settings tree_blocked /\
  _bootstrap default_settings 5 tree_blocked = Raise FileExistsError /\
  (exists fs', _bootstrap default_settings 5 tree_mixed = Ok fs').
Proof.
  destruct (bootstrap_succeeds_iff_folders_free default_settings 5 tree_blocked)
    as (_ & Hblocked & _).
  destruct (bootstrap_succeeds_iff_folders_free default_settings 5 tree_mixed)
    as ([Hok _] & _).
  assert (H1 : ~ folders_free default_settings tree_blocked)
    by (apply (bool_decide_eq_false_1 _); vm_compute; reflexivity).
  assert (H2 : folders_free default_settings tree_mixed)
    by (apply (bool_decide_eq_true_1 _); vm_compute; reflexivity).
  exact (conj H1 (conj (Hblocked H1) (Hok H2))).
Defined.

End FsMore.

Module JanitorMore.

Import Classify Janitor JanitorFacts FsMore.

#[local] Arguments scan_entry : simpl never.

Lemma sublist_List_filter {A : Type} (f : A -> bool) (l : list A) :
  List.filter f l `sublist_of` l.
Proof.
  induction l as [|x l IH]; simpl; [constructor|].
  destruct (f x); [by apply sublist_skip|by apply sublist_cons].
Qed.

Lemma NoDup_List_filter {A : Type} (f : A -> bool) (l : list A) :
  NoDup l -> NoDup (List.filter f l).
Proof. intros H. eapply sublist_NoDup; [exact H|apply sublist_List_filter]. Qed.


Section Scan.

Variable fnmatch : string -> string -> bool.
Variable cfg : JanitorSettings.
Variable now : Z.


(** One iteration either leaves the tree and the moves alone, or handles an
    entry that passes the checks. *)
Lemma scan_entry_passes_or_keeps (fs fs' : tree) (r r' : report) (name : string) :
  scan_entry fnmatch cfg now (fs, r) name = Ok (fs', r') ->
  (fs' = fs /\ moves r' = moves r /\ is_eligible fnmatch cfg now fs name = false) \/
  (passes_checks fnmatch cfg now fs name /\
   is_eligible fnmatch cfg now fs name = true).
Proof.
  unfold passes_checks, is_eligible, fails_a_check, scan_entry.
  rewrite is_in_top_folder_entry.
  destruct (is_dir fs name); [intros [= <- <-]; by left|].
  destruct (matches_any _ _ _); [intros [= <- <-]; by left|].
  destruct (is_recent _ _ _ _) as [[]|e]; simpl;
    [intros [= <- <-]; by left| |done].
  case_bool_decide as Hprot; [intros [= <- <-]; by left|].
  intros _. right. by split_and!.
Qed.

(** The sources of the recorded moves, in order: entries that pass every
    check, and in a dry run all of them. *)
Lemma scan_entries_sources (names : list string) (fs fs' : tree) (r r' : report) :
  NoDup names -> (forall n, n ∈ names -> is_Some (fs !! n)) ->
  scan_entries fnmatch cfg now names (fs, r) = Ok (fs', r') ->
  exists l,
    (moves r').*1 = (moves r).*1 ++ (joinpath (root cfg) <$> l) /\
    l `sublist_of` List.filter (is_eligible fnmatch cfg now fs) names /\
    (dry_run cfg = true -> l = List.filter (is_eligible fnmatch cfg now fs) names).
Proof.
  revert fs r. induction names as [|name names IH]; intros fs r Hnd Hin; simpl.
  - intros [= <- <-]. exists []. by rewrite app_nil_r.
  - apply NoDup_cons in Hnd as [Hname Hnd].
    destruct (scan_entry fnmatch cfg now (fs, r) name) as [[fs1 r1]|e] eqn:Hstep;
      simpl; [|done].
    intros Hrest.
    assert (Hframe : forall n, n ∈ names ->
              is_Some (fs1 !! n) /\ kind (fs1 !! n) = kind (fs !! n)).
    { intros n Hn. eapply scan_entry_frame; [done| |].
      - intros ->. done.
      - apply Hin. by right. }
    apply IH in Hrest as (l & Hl & Hsub & Hdry);
      [|done|intros n Hn; by apply Hframe].
    rewrite (List.filter_ext_in (is_eligible fnmatch cfg now fs1)
               (is_eligible fnmatch cfg now fs)) in Hsub, Hdry; last first.
    { intros n Hn%list_elem_of_In. apply is_eligible_kind. by apply Hframe. }
    { intros n Hn%list_elem_of_In. apply is_eligible_kind. by apply Hframe. }
    destruct (scan_entry_passes_or_keeps _ _ _ _ _ Hstep)
      as [(_ & Hmoves & ->)|[Hpass ->]].
    + exists l. by rewrite Hl, Hmoves.
    + rewrite (scan_entry_passed _ _ _ _ _ _ Hpass) in Hstep.
      destruct (folder_for _ _) as [folder|e]; simpl in Hstep; [|done].
      destruct (dry_run cfg).
      * injection Hstep as <- <-. exists (name :: l). split_and!.
        -- rewrite Hl. simpl. rewrite fmap_app, <- app_assoc. done.
        -- by apply sublist_skip.
        -- intros _. by rewrite Hdry.
      * destruct (atomic_move _ _ _ _ _) as [fs2 [e|]];
          injection Hstep as <- <-.
        -- exists l. split_and!; [done|by apply sublist_cons|done].
        -- exists (name :: l). split_and!; [|by apply sublist_skip|done].
           rewrite Hl. simpl. rewrite fmap_app, <- app_assoc. done.
Qed.

End Scan.

(** X4. The sources of the moves a scan reports are, in listing order,
    entries of the root that are not directories and pass the ignore, age and
    protected-folder checks, each at most once; a dry run reports every such
    entry. *)
Theorem report_sources_are_eligible_entries
    (fnmatch : string -> string -> bool) (cfg : JanitorSettings) (now : Z)
    (fs fs' : tree) (r : report) :
  _scan_once fnmatch cfg now fs = Ok (fs', r) ->
  exists l,
    (moves r).*1 = joinpath (root cfg) <$> l /\
    l `sublist_of` List.filter (is_eligible fnmatch cfg now fs) (iterdir fs) /\
    NoDup l /\
    (dry_run cfg = true ->
     l = List.filter (is_eligible fnmatch cfg now fs) (iterdir fs)).
Proof.
  intros Hscan. unfold _scan_once in Hscan.
  apply scan_entries_sources in Hscan as (l & Hl & Hsub & Hdry);
    [|apply iterdir_NoDup|apply iterdir_present].
  exists l. split_and!; try done.
  eapply sublist_NoDup; [|exact Hsub]. apply NoDup_List_filter, iterdir_NoDup.
Qed.

Lemma report_sources_are_eligible_entries_witness :
  _scan_once glob default_settings 1000 tree_mixed
    = Ok (tree_mixed_after, report_mixed) /\
  exists l,
    (moves report_mixed).*1 = joinpath (root default_settings) <$> l /\
    l `sublist_of` List.filter (is_eligible glob default_settings 1000 tree_mixed)
                     (iterdir tree_mixed).
Proof.
  assert (H : _scan_once glob default_settings 1000 tree_mixed
              = Ok (tree_mixed_after, report_mixed)) by (vm_compute; reflexivity).
  destruct (report_sources_are_eligible_entries _ _ _ _ _ _ H)
    as (l & Hl & Hsub & _).
  exact (conj H (ex_intro _ l (conj Hl Hsub))).
Defined.

(** *** What a live scan does to the tree *)

Section Live.

Variable fnmatch : string -> string -> bool.
Variable cfg : JanitorSettings.
Variable now : Z.
Hypothesis Hlive : dry_run cfg = false.




End Live.



(** *** The default protected folders *)

Lemma protected_default (raw : raw_settings) (k f : string) :
  raw_protected_folders raw = None \/ raw_protected_folders raw = Some [] ->
  folders (_load_settings raw) !! k = Some f ->
  f ∈ (list_to_set (protected_folders (_load_settings raw)) : gset string).
Proof.
  intros Hraw Hk. apply elem_of_list_to_set.
  assert (protected_folders (_load_settings raw)
          = elements (list_to_set (map_to_list (folders (_load_settings raw))).*2
                        : gset string)) as ->.
  { unfold _load_settings at 1. simpl. by destruct Hraw as [-> | ->]. }
  apply elem_of_elements, elem_of_list_to_set, list_elem_of_fmap.
  exists (k, f). split; [done|]. by apply elem_of_map_to_list.
Qed.

(** X6. With [protected_folders] left unset (or empty) in the configuration,
    every configured folder name is protected: an entry of the root that
    carries such a name is never moved, whatever its kind, its age and the
    ignore patterns are. *)
Theorem folder_names_are_never_moved
    (fnmatch : string -> string -> bool) (raw : raw_settings) (now : Z)
    (fs fs' : tree) (r r' : report) (k f : string) :
  raw_protected_folders raw = None \/ raw_protected_folders raw = Some [] ->
  folders (_load_settings raw) !! k = Some f ->
  scan_entry fnmatch (_load_settings raw) now (fs, r) f = Ok (fs', r') ->
  fs' = fs /\ moves r' = moves r /\ moved_count r' = moved_count r.
Proof.
  intros Hraw Hk Hstep.
  pose proof (protected_default raw k f Hraw Hk) as Hprot.
  destruct (scan_entry_cases _ _ _ _ _ _ _ _ Hstep)
    as [(_ & -> & ->)|[(_ & -> & ->)|(Hs & Hd & _)]]; [done..|].
  exfalso. unfold is_skipped, fails_a_check in Hs. rewrite Hd in Hs.
  rewrite (bool_decide_eq_true_2 _ Hprot) in Hs. simpl in Hs.
  by rewrite orb_true_r in Hs.
Qed.

(** A regular file that carries the name of the folder for documents. *)
Definition tree_named_like_folder : tree :=
  <["Docs" := File (StatOk 0)]> ∅.

Lemma folder_names_are_never_moved_witness :
  raw_protected_folders no_raw_settings = None /\
  folders (_load_settings no_raw_settings) !! "docs" = Some "Docs" /\
  scan_entry glob (_load_settings no_raw_settings) 1000
    (tree_named_like_folder, no_report) "Docs"
    = Ok (tree_named_like_folder, skip no_report) /\
  moves (skip no_report) = moves no_report.
Proof.
  assert (H1 : folders (_load_settings no_raw_settings) !! "docs" = Some "Docs")
    by (vm_compute; reflexivity).
  assert (H2 : scan_entry glob (_load_settings no_raw_settings) 1000
                 (tree_named_like_folder, no_report) "Docs"
               = Ok (tree_named_like_folder, skip no_report))
    by (vm_compute; reflexivity).
  exact (conj eq_refl (conj H1 (conj H2 (proj1 (proj2
    (folder_names_are_never_moved glob no_raw_settings 1000%Z _ _ _ _ "docs" "Docs"
       (or_introl eq_refl) H1 H2)))))).
Defined.

End JanitorMore.

(** * The status table and the scan of the Dev Git Overview *)

Module GitReport.

Import GitOverview.

(** [value.replace("|", "\\|")] *)
Fixpoint escape_pipes (value : string) : string :=
  match value with
  | "" => ""
  | String c rest =>
      if decide (c = "|"%char) then String "\" (String "|" (escape_pipes rest))
      else String c (escape_pipes rest)
  end.

(** [_md_cell]: [value.replace("|", "\\|").strip() or "-"]. *)
Definition _md_cell (value : string) : string :=
  let cell := Str.strip (escape_pipes value) in
  if decide (cell = "") then "-" else cell.

(** The text of the "Uncommitted Changes" column. *)
Definition uncommitted_text (dirty : Z) : string :=
  if bool_decide (dirty > 0)%Z then "yes (" +:+ pretty dirty +:+ ")" else "no".

(** One row of the table, as the loop of [_build_table_lines] appends it. *)
Definition table_row (status : RepoStatus) (now_utc : Z) : string :=
  "| " +:+ _md_cell ("[[" +:+ project status +:+ "]]") +:+ " | "
  +:+ _md_cell (branch status) +:+ " | "
  +:+ _md_cell (last_push status) +:+ " | "
  +:+ _md_cell (uncommitted_text (dirty_count status)) +:+ " | "
  +:+ _md_cell (_build_flags status now_utc) +:+ " |".

Definition table_header : list string :=
  [ "| Project | Branch | Last Push | Uncommitted Changes | Flag |";
    "|---|---|---|---|---|" ].

(** [_build_table_lines]; [now_utc] is [datetime.now(timezone.utc)]. *)
Definition _build_table_lines (statuses : list RepoStatus) (now_utc : Z)
  : list string :=
  match statuses with
  | [] => table_header ++ [ "| - | - | - | - | - |" ]
  | _ => table_header ++ map (fun status => table_row status now_utc) statuses
  end.

(** [_inspect_repo]: [repo] answers the git queries run in [repo_path]. *)
Section Inspect.

Variable fromisoformat : string -> option parsed.

Definition _inspect_repo (repo : git) (repo_path : Path) : option RepoStatus :=
  match _run_git repo [ "rev-parse"; "--abbrev-ref"; "HEAD" ] with
  | None => None
  | Some branch =>
      let status_output := _run_git repo [ "status"; "--porcelain" ] in
      let dirty_count :=
        length (filter (fun line => Str.strip line <> "")
                       (Str.splitlines_go None (default "" status_output))) in
      let '(last_push, last_push_at) := _resolve_last_push fromisoformat repo in
      Some {| project := name repo_path;
              branch := branch;
              last_push := last_push;
              last_push_at := last_push_at;
              dirty_count := Z.of_nat dirty_count |}
  end.

(** [statuses.sort(key=lambda item: item.project.lower())]: the sort of
    Python is stable, so it is the insertion of each status before the first
    one whose key is not smaller, from the last status to the first. *)
Definition sort_key (status : RepoStatus) : string := Str.lower (project status).

Fixpoint insert_status (x : RepoStatus) (l : list RepoStatus) : list RepoStatus :=
  match l with
  | [] => [x]
  | y :: l' =>
      if String.leb (sort_key x) (sort_key y) then x :: y :: l'
      else y :: insert_status x l'
  end.

Definition sort_statuses (l : list RepoStatus) : list RepoStatus :=
  foldr insert_status [] l.

(** What the scan sees: the directory tree below the root ([None] when the
    root does not exist) and the answers of git in each directory. *)
Record world : Type := {
  root_tree : option dtree;
  git_at : Path -> git
}.

(** [_scan_once]: the sorted statuses that are handed to
    [_maybe_write_obsidian]; [None] when the root does not exist. *)
Definition _scan_once (cfg : DevGitOverviewSettings) (w : world)
  : option (list RepoStatus) :=
  match root_tree w with
  | None => None
  | Some t =>
      let repos := _discover_repositories cfg t in
      let statuses :=
        omap (fun repo_path => _inspect_repo (git_at w repo_path) repo_path) repos in
      Some (sort_statuses statuses)
  end.

End Inspect.

End GitReport.

Module GitReportFacts.

Import GitOverview GitReport.

(** *** Strings *)

Lemma app_assoc_str (s t u : string) : (s +:+ t) +:+ u = s +:+ (t +:+ u).
Proof.
  induction s as [|a s IH]; [done|].
  change (String a ((s +:+ t) +:+ u) = String a (s +:+ (t +:+ u))). by rewrite IH.
Qed.

Lemma app_nil_r_str (s : string) : s +:+ "" = s.
Proof.
  induction s as [|a s IH]; [done|].
  change (String a (s +:+ "") = String a s). by rewrite IH.
Qed.







(** *** Pipes *)










(** *** The table *)









(** *** The sorted statuses *)

Lemma length_omap_le {A B : Type} (f : A -> option B) (l : list A) :
  length (omap f l) <= length l.
Proof.
  induction l as [|x l IH]; [done|].
  change (omap f (x :: l))
    with (match f x with Some y => y :: omap f l | None => omap f l end).
  destruct (f x); simpl; lia.
Qed.

(** The order of the sort: by lowercased project name. *)
Definition key_le (a b : RepoStatus) : Prop :=
  String.le (sort_key a) (sort_key b).

#[local] Instance key_le_trans : Transitive key_le.
Proof. intros a b c. unfold key_le. apply transitivity. Qed.

Lemma leb_false_le (s t : string) : String.leb s t = false -> String.le t s.
Proof.
  intros H. destruct (total String.le s t) as [Hst|Hts]; [|done].
  unfold String.le in Hst. rewrite H in Hst. done.
Qed.

Lemma insert_status_perm (x : RepoStatus) (l : list RepoStatus) :
  insert_status x l ≡ₚ x :: l.
Proof.
  induction l as [|y l IH]; simpl; [done|].
  destruct (String.leb _ _); [done|]. rewrite IH. apply Permutation_swap.
Qed.

Lemma insert_status_sorted (x : RepoStatus) (l : list RepoStatus) :
  Sorted key_le l -> Sorted key_le (insert_status x l).
Proof.
  induction l as [|y l IH]; simpl; intros Hl.
  - repeat constructor.
  - destruct (String.leb (sort_key x) (sort_key y)) eqn:Hxy.
    + constructor; [done|]. constructor. unfold key_le, String.le. by rewrite Hxy.
    + apply Sorted_inv in Hl as [Hl Hhd]. constructor; [by apply IH|].
      destruct l as [|z l]; simpl.
      * constructor. by apply leb_false_le.
      * destruct (String.leb (sort_key x) (sort_key z)).
        -- constructor. by apply leb_false_le.
        -- constructor. by apply HdRel_inv in Hhd.
Qed.

Lemma insert_status_stable (x : RepoStatus) (l : list RepoStatus) (k : string) :
  filter (fun s => sort_key s = k) (insert_status x l)
  = filter (fun s => sort_key s = k) (x :: l).
Proof.
  induction l as [|y l IH]; simpl; [done|].
  destruct (String.leb (sort_key x) (sort_key y)) eqn:Hxy; [done|].
  rewrite (filter_cons _ y), IH, !filter_cons.
  destruct (decide (sort_key x = k)) as [Hx|Hx];
    destruct (decide (sort_key y = k)) as [Hy|Hy]; try done.
  exfalso. rewrite <- Hy in Hx. rewrite Hx in Hxy.
  pose proof (reflexivity (R := String.le) (sort_key y)) as Hrefl.
  unfold String.le in Hrefl. by rewrite Hxy in Hrefl.
Qed.

Lemma sort_statuses_spec (l : list RepoStatus) :
  Sorted key_le (sort_statuses l) /\
  sort_statuses l ≡ₚ l /\
  forall k, filter (fun s => sort_key s = k) (sort_statuses l)
            = filter (fun s => sort_key s = k) l.
Proof.
  induction l as [|x l (Hs & Hp & Hst)]; simpl.
  - split_and!; [constructor|done|done].
  - split_and!.
    + by apply insert_status_sorted.
    + by rewrite insert_status_perm, Hp.
    + intros k. by rewrite insert_status_stable, !filter_cons, Hst.
Qed.

(** X9. The scan of the Dev Git Overview gives nothing when the root does
    not exist.  Otherwise its statuses are those of the discovered
    repositories whose branch query succeeds, none lost and none twice,
    in ascending order of the lowercased project name, statuses with the
    same key staying in discovery order. *)
Theorem scan_statuses_sorted_and_complete
    (fromisoformat : string -> option parsed) (cfg : DevGitOverviewSettings)
    (w : world) :
  (root_tree w = None <-> _scan_once fromisoformat cfg w = None) /\
  (forall t, root_tree w = Some t ->
     exists statuses,
       _scan_once fromisoformat cfg w = Some statuses /\
       StronglySorted key_le statuses /\
       statuses ≡ₚ
         omap (fun p => _inspect_repo fromisoformat (git_at w p) p)
              (_discover_repositories cfg t) /\
       (forall k,
          filter (fun s => sort_key s = k) statuses
          = filter (fun s => sort_key s = k)
              (omap (fun p => _inspect_repo fromisoformat (git_at w p) p)
                    (_discover_repositories cfg t))) /\
       length statuses <= length (_discover_repositories cfg t)).
Proof.
  unfold _scan_once. split.
  - destruct (root_tree w); split; done.
  - intros t ->. eexists. split; [done|].
    destruct (sort_statuses_spec
                (omap (fun p => _inspect_repo fromisoformat (git_at w p) p)
                      (_discover_repositories cfg t))) as (Hs & Hp & Hst).
    split_and!; [|done|done|].
    + by apply Sorted_StronglySorted; [apply _|].
    + rewrite Hp. apply length_omap_le.
Qed.

(** Two repositories below the root, [Zeta] before [alpha] in the listing. *)
Definition world_two_repos : world :=
  {| root_tree :=
       Some (DNode [ ("Zeta", DNode [ (".git", DNode []) ]);
                     ("alpha", DNode [ (".git", DNode []) ]);
                     ("broken", DNode [ (".git", DNode []) ]) ]);
     git_at := fun p args =>
       if decide (List.last p "" = "broken") then Some (128%Z, "")
       else if decide (args = [ "rev-parse"; "--abbrev-ref"; "HEAD" ])
            then Some (0%Z, "main")
       else if decide (args = [ "status"; "--porcelain" ])
            then Some (0%Z, " M a.py" +:+ String "010" "?? b.py")
       else Some (128%Z, "") |}.

Definition statuses_two_repos : list RepoStatus :=
  [ {| project := "alpha"; branch := "main"; last_push := "no upstream";
       last_push_at := None; dirty_count := 2 |};
    {| project := "Zeta"; branch := "main"; last_push := "no upstream";
       last_push_at := None; dirty_count := 2 |} ].

Lemma scan_statuses_sorted_and_complete_witness :
  root_tree world_two_repos
  = Some (DNode [ ("Zeta", DNode [ (".git", DNode []) ]);
                  ("alpha", DNode [ (".git", DNode []) ]);
                  ("broken", DNode [ (".git", DNode []) ]) ]) /\
  _scan_once LastPushFacts.no_date (DiscoveryFacts.settings_with_depth 6)
    world_two_repos = Some statuses_two_repos /\
  StronglySorted key_le statuses_two_repos.
Proof.
  destruct (scan_statuses_sorted_and_complete LastPushFacts.no_date
              (DiscoveryFacts.settings_with_depth 6) world_two_repos) as [_ H].
  destruct (H _ eq_refl) as (statuses & Hscan & Hsorted & _).
  assert (H2 : _scan_once LastPushFacts.no_date
                 (DiscoveryFacts.settings_with_depth 6) world_two_repos
               = Some statuses_two_repos) by (vm_compute; reflexivity).
  rewrite H2 in Hscan. injection Hscan as <-.
  exact (conj eq_refl (conj H2 Hsorted)).
Defined.

End GitReportFacts.

(** * What discovery records *)

Module DiscoveryMore.

Import GitOverview DiscoveryFacts.

(** [at_path t rel sub]: [sub] is the directory reached from [t] along the
    names [rel]. *)
Inductive at_path : dtree -> list string -> dtree -> Prop :=
  | at_here (t : dtree) : at_path t [] t
  | at_sub (subs : list (string * dtree)) (n : string) (sub t' : dtree)
      (rel : list string) :
      (n, sub) ∈ subs -> at_path sub rel t' -> at_path (DNode subs) (n :: rel) t'.

(** The directory directly contains a [.git] directory. *)
Definition has_git (t : dtree) : Prop := ".git" ∈ map fst (subdirs t).

Section Walk.

Variable cfg : DevGitOverviewSettings.
Variable root_depth : nat.

Lemma walk_recorded_has_git (t : dtree) (current p : Path) :
  (p, true) ∈ walk cfg root_depth current t ->
  exists rel t', p = current ++ rel /\ at_path t rel t' /\ has_git t'.
Proof.
  revert current. induction t as [subs IH] using dtree_ind. intros current.
  rewrite elem_of_walk.
  intros [[-> Hrec]|(sub & Hsub & _ & Hin)].
  - symmetry in Hrec. apply visit_recorded in Hrec as (_ & Hgit & _).
    exists [], (DNode subs). rewrite app_nil_r. split_and!; [done|constructor|done].
  - rewrite Forall_forall in IH.
    apply (IH sub Hsub) in Hin as (rel & t' & -> & Hat & Hgit).
    exists (fst sub :: rel), t'. unfold joinpath. rewrite <- app_assoc.
    split_and!; [done| |done].
    apply at_sub with (sub := snd sub); [by destruct sub|done].
Qed.

Lemma walk_records_reachable (t t' : dtree) (rel : list string) (current : Path) :
  at_path t rel t' -> has_git t' ->
  (forall n, n ∈ rel -> n ∉ ignore_dirs cfg) ->
  (forall rel1 rel2 t1,
      rel = rel1 ++ rel2 -> rel2 <> [] -> at_path t rel1 t1 -> ~ has_git t1) ->
  (max_depth cfg < 0 \/
   depth root_depth current + Z.of_nat (length rel) <= max_depth cfg)%Z ->
  (current ++ rel, true) ∈ walk cfg root_depth current t.
Proof.
  intros Hat. revert current.
  induction Hat as [t|subs n sub t' rel Hsub Hat IH];
    intros current Hgit Hign Habove Hdepth.
  - destruct t as [subs]. rewrite app_nil_r. apply elem_of_walk. left.
    split; [done|].
    destruct (visit_cases cfg (depth root_depth current) (map fst subs))
      as [(Hdeep & _)|[(_ & _ & ->)|(_ & Hno & _)]]; [|done|done].
    simpl in Hdepth. lia.
  - apply elem_of_walk. right. exists (n, sub). split; [done|].
    assert (Hkeep : n ∈ snd (visit cfg (depth root_depth current) (map fst subs))).
    { destruct (visit_cases cfg (depth root_depth current) (map fst subs))
        as [(Hdeep & _)|[(_ & Hhas & _)|(_ & _ & ->)]].
      - simpl in Hdepth. lia.
      - exfalso. apply (Habove [] (n :: rel) (DNode subs)); [done|done|constructor|done].
      - simpl. apply list_elem_of_filter. split; [apply Hign; by left|].
        apply list_elem_of_fmap. by exists (n, sub). }
    split; [done|]. simpl.
    replace (current ++ n :: rel) with (joinpath current n ++ rel)
      by (unfold joinpath; by rewrite <- app_assoc).
    apply IH; try done.
    + intros m Hm. apply Hign. by right.
    + intros rel1 rel2 t1 -> Hne Hat1.
      apply (Habove (n :: rel1) rel2 t1); [done|done|].
      by apply at_sub with (sub := sub).
    + rewrite depth_joinpath. simpl in Hdepth. lia.
Qed.

End Walk.

(** X10. Discovery records directories that directly contain [.git], and
    only such: every recorded path leads from the root to a directory of the
    tree that has a [.git] sub-directory.  Conversely such a directory is
    recorded when no name on its path is ignored, no directory above it has a
    [.git] of its own, and its depth does not exceed a non-negative
    [max_depth]. *)
Theorem discovery_records_git_directories
    (cfg : DevGitOverviewSettings) (t : dtree) :
  (forall r, r ∈ _discover_repositories cfg t ->
     exists rel t', r = root cfg ++ rel /\ at_path t rel t' /\ has_git t') /\
  (forall rel t',
     at_path t rel t' -> has_git t' ->
     (forall n, n ∈ rel -> n ∉ ignore_dirs cfg) ->
     (forall rel1 rel2 t1,
         rel = rel1 ++ rel2 -> rel2 <> [] -> at_path t rel1 t1 -> ~ has_git t1) ->
     (max_depth cfg < 0 \/ Z.of_nat (length rel) <= max_depth cfg)%Z ->
     root cfg ++ rel ∈ _discover_repositories cfg t).
Proof.
  split.
  - intros r Hr%elem_of_discovered. by eapply walk_recorded_has_git.
  - intros rel t' Hat Hgit Hign Habove Hdepth. apply elem_of_discovered.
    eapply walk_records_reachable; try done.
    unfold depth. lia.
Qed.

Lemma discovery_records_git_directories_witness :
  at_path tree_repos ["proj"]
    (DNode [ (".git", DNode []); ("vendor", DNode [ (".git", DNode []) ]) ]) /\
  has_git (DNode [ (".git", DNode []); ("vendor", DNode [ (".git", DNode []) ]) ]) /\
  root (settings_with_depth 6) ++ ["proj"]
    ∈ _discover_repositories (settings_with_depth 6) tree_repos.
Proof.
  assert (H1 : at_path tree_repos ["proj"]
    (DNode [ (".git", DNode []); ("vendor", DNode [ (".git", DNode []) ]) ])).
  { apply at_sub with
      (sub := DNode [ (".git", DNode []); ("vendor", DNode [ (".git", DNode []) ]) ]).
    - apply list_elem_of_here.
    - constructor. }
  assert (H2 : has_git
    (DNode [ (".git", DNode []); ("vendor", DNode [ (".git", DNode []) ]) ]))
    by apply list_elem_of_here.
  assert (H3 : forall n, n ∈ ["proj"] -> n ∉ ignore_dirs (settings_with_depth 6)).
  { intros n Hn. apply list_elem_of_singleton in Hn. subst n.
    apply (bool_decide_eq_false_1 _). vm_compute. reflexivity. }
  assert (H4 : forall rel1 rel2 t1,
             ["proj"] = rel1 ++ rel2 -> rel2 <> [] -> at_path tree_repos rel1 t1 ->
             ~ has_git t1).
  { intros rel1 rel2 t1 Heq Hne Hat. destruct rel1 as [|x rel1].
    - inversion Hat; subst. unfold has_git. simpl.
      apply (bool_decide_eq_false_1 _). vm_compute. reflexivity.
    - injection Heq as _ Heq. symmetry in Heq.
      apply app_eq_nil in Heq as [_ ->]. done. }
  assert (H5 : (max_depth (settings_with_depth 6) < 0 \/
                Z.of_nat (length ["proj"]) <= max_depth (settings_with_depth 6))%Z)
    by (right; simpl; lia).
  exact (conj H1 (conj H2
    (proj2 (discovery_records_git_directories (settings_with_depth 6) tree_repos)
       _ _ H1 H2 H3 H4 H5))).
Defined.

End DiscoveryMore.

(** * Further properties of the supervisor *)

Module SupervisorMore.

Import Supervisor SupervisorFacts.

Lemma run_snoc (enabled : list string) (schedule : list event) (e : event) :
  run enabled (schedule ++ [e]) = step (run enabled schedule) e.
Proof. unfold run. by rewrite foldl_app. Qed.

Lemma run_app (enabled : list string) (schedule1 schedule2 : list event) :
  run enabled (schedule1 ++ schedule2) = foldl step (run enabled schedule1) schedule2.
Proof. unfold run. by rewrite foldl_app. Qed.





(** *** What a step can change *)

Lemma worker_raises_keys (i : nat) (msg : string) (s : state) :
  feature_key <$> workers (worker_raises i msg s) = feature_key <$> workers s.
Proof.
  unfold worker_raises. destruct (workers s !! i) as [w|] eqn:Hw; [|done].
  destruct (is_alive w); [|done]. simpl.
  rewrite list_fmap_insert. simpl. apply list_insert_id.
  by rewrite list_lookup_fmap, Hw.
Qed.

Lemma worker_raises_others (i j : nat) (msg : string) (s : state) :
  j <> i -> workers (worker_raises i msg s) !! j = workers s !! j.
Proof.
  intros Hne. unfold worker_raises. destruct (workers s !! i) as [w|]; [|done].
  destruct (is_alive w); [|done]. simpl. by rewrite list_lookup_insert_ne.
Qed.

Lemma step_log_prefix (s : state) (e : event) : log s `prefix_of` log (step s e).
Proof.
  unfold step, main_step, worker_raises, on_signal.
  destruct (main_phase s) as [[|key pending]|key pending| |en]; try done;
    destruct e as [|i msg|]; simpl; try done; try (by apply prefix_app_r);
    try (destruct (existsb _ _); simpl; try done; by apply prefix_app_r);
    destruct (workers s !! i) as [w|]; try done;
    destruct (is_alive w); simpl; try done; by apply prefix_app_r.
Qed.

Lemma worker_raises_stays (i : nat) (msg : string) (s : state) (j : nat) (w : worker) :
  workers s !! j = Some w ->
  exists w', workers (worker_raises i msg s) !! j = Some w' /\
    feature_key w' = feature_key w /\
    (is_alive w = false -> w' = w).
Proof.
  intros Hw. destruct (decide (j = i)) as [->|Hne].
  - unfold worker_raises. rewrite Hw. destruct (is_alive w) eqn:Ha; [|by exists w].
    simpl. eexists. split.
    { apply list_lookup_insert_eq. apply (lookup_lt_Some _ _ _ Hw). }
    split; [done|congruence].
  - rewrite worker_raises_others by done. by exists w.
Qed.

(** A step keeps every worker, with its key; a dead worker stays dead. *)
Lemma step_worker_stays (s : state) (e : event) (j : nat) (w : worker) :
  workers s !! j = Some w ->
  exists w', workers (step s e) !! j = Some w' /\
    feature_key w' = feature_key w /\
    (is_alive w = false -> w' = w).
Proof.
  intros Hw. unfold step.
  destruct (main_phase s) as [pending|key pending| |en] eqn:Hphase;
    [| | |by exists w];
    (destruct e as [|i msg|];
     [|by apply worker_raises_stays|by exists w]);
    unfold main_step; rewrite Hphase.
  - destruct pending as [|key pending]; [by exists w|]. simpl. exists w.
    split; [|done]. apply lookup_app_l_Some, Hw.
  - by exists w.
  - destruct (existsb _ _); by exists w.
Qed.

(** X12. Nothing is taken back and nothing is restarted.  Along every
    schedule the log only grows, every worker keeps its place and its
    feature key, and a worker that has died stays dead; the crash of one
    worker changes no other worker. *)
Theorem supervisor_never_restarts
    (enabled : list string) (schedule1 schedule2 : list event) :
  log (run enabled schedule1) `prefix_of` log (run enabled (schedule1 ++ schedule2)) /\
  (forall j w, workers (run enabled schedule1) !! j = Some w ->
     exists w', workers (run enabled (schedule1 ++ schedule2)) !! j = Some w' /\
       feature_key w' = feature_key w /\
       (is_alive w = false -> w' = w)) /\
  (forall (s : state) (i j : nat) (msg : string),
     j <> i -> workers (worker_raises i msg s) !! j = workers s !! j).
Proof.
  rewrite run_app. generalize (run enabled schedule1). intros s.
  split_and!.
  - revert s. induction schedule2 as [|e schedule2 IH]; intros s; simpl; [done|].
    etrans; [apply (step_log_prefix s e)|apply IH].
  - revert s. induction schedule2 as [|e schedule2 IH]; intros s j w Hw; simpl.
    + by exists w.
    + destruct (step_worker_stays s e j w Hw) as (w1 & Hw1 & Hk1 & Hd1).
      destruct (IH _ _ _ Hw1) as (w2 & Hw2 & Hk2 & Hd2).
      exists w2. split_and!; [done|congruence|].
      intros Hdead. specialize (Hd1 Hdead). subst w1. by apply Hd2.
  - intros s' i j msg. apply worker_raises_others.
Qed.

(** X13. The workers are started in the order of the enabled features, one
    per feature: at every moment their keys are a prefix of the list, and the
    whole list once the liveness loop is reached.  [main] returns after
    having started a worker only from the poll, when every feature has been
    started and every worker is dead. *)
Theorem workers_follow_enabled_features
    (enabled : list string) (schedule : list event) :
  feature_key <$> workers (run enabled schedule) `prefix_of` enabled /\
  (main_phase (run enabled schedule) = Polling ->
   feature_key <$> workers (run enabled schedule) = enabled) /\
  (main_phase (run enabled schedule) = Ended Returned ->
   workers (run enabled schedule) <> [] ->
   feature_key <$> workers (run enabled schedule) = enabled /\
   Forall (fun w => is_alive w = false) (workers (run enabled schedule)) /\
   all_stopped ∈ log (run enabled schedule)).
Proof.
  assert (Hk : feature_key <$> workers (run enabled schedule) `prefix_of` enabled /\
               (main_phase (run enabled schedule) = Ended Returned ->
                workers (run enabled schedule) = [] \/
                all_stopped ∈ log (run enabled schedule))).
  { induction schedule as [|e schedule [IH1 IH2]] using rev_ind.
    - change (run enabled []) with (main_start enabled). unfold main_start.
      destruct enabled as [|k enabled]; [simpl; split; [done|by left]|].
      destruct (List.find _ _); simpl; (split; [apply prefix_nil|]);
        [by left|done].
    - rewrite run_snoc. set (s := run enabled schedule) in *.
      destruct (invariant_run enabled schedule) as [_ _ _ Hstarted].
      fold s in Hstarted. unfold step.
      destruct (main_phase s) as [pending|key pending| |en] eqn:Hphase;
        [| | |by rewrite Hphase];
        destruct (Hstarted I) as [Hnot Hkeys]; simpl in Hkeys;
        (destruct e as [|i msg|];
         [|rewrite worker_raises_keys; split; [done|];
           unfold worker_raises; destruct (workers s !! i) as [w|];
           [destruct (is_alive w)|]; simpl; by rewrite Hphase
          |split; [done|done]]).
      + unfold main_step. rewrite Hphase. destruct pending as [|key pending]; simpl.
        * split; [done|done].
        * split; [|done]. rewrite fmap_app. simpl. rewrite <- Hkeys.
          apply prefix_app, prefix_cons, prefix_nil.
      + unfold main_step. rewrite Hphase. simpl. split; [done|done].
      + unfold main_step. rewrite Hphase.
        destruct (existsb is_alive (workers s)); simpl.
        * split; [done|]. by rewrite Hphase.
        * split; [done|]. intros _. right. apply elem_of_app. right.
          by apply list_elem_of_singleton. }
  destruct Hk as [Hprefix Hret].
  destruct (invariant_run enabled schedule) as [_ _ Hstopped Hstarted].
  split_and!; [done| |].
  - intros Hp. rewrite Hp in Hstarted. destruct (Hstarted I) as [_ Hkeys].
    simpl in Hkeys. by rewrite app_nil_r in Hkeys.
  - intros Hp Hne. destruct (Hret Hp) as [?|Hin]; [done|].
    destruct (Hstopped Hin) as (_ & _ & Hdead & Hkeys). done.
Qed.

Lemma workers_follow_enabled_features_witness :
  main_phase (run ["downloads_janitor"] schedule_crash) = Ended Returned /\
  workers (run ["downloads_janitor"] schedule_crash) <> [] /\
  feature_key <$> workers (run ["downloads_janitor"] schedule_crash)
    = ["downloads_janitor"].
Proof.
  assert (H1 : main_phase (run ["downloads_janitor"] schedule_crash) = Ended Returned)
    by (vm_compute; reflexivity).
  assert (H2 : workers (run ["downloads_janitor"] schedule_crash) <> [])
    by (vm_compute; discriminate).
  exact (conj H1 (conj H2 (proj1 (proj2 (proj2
    (workers_follow_enabled_features ["downloads_janitor"] schedule_crash)) H1 H2)))).
Defined.

End SupervisorMore.

(** * Obsidian notes ([app/utils/obsidian.py]) *)

Module Obsidian.

Definition newline : ascii := "010"%char.

(** [s.rstrip("\n")] *)
Fixpoint rstrip_newlines (s : string) : string :=
  match s with
  | "" => ""
  | String c rest =>
      match rstrip_newlines rest with
      | "" => if decide (c = newline) then "" else String c ""
      | kept => String c kept
      end
  end.

(** [markdown.rstrip("\n") + "\n"], the text that [append_markdown] and
    [replace_markdown] write. *)
Definition note_text (markdown : string) : string :=
  rstrip_newlines markdown +:+ String newline "".

(** The file at [target.note_path]: absent, a regular file with its text, or
    a path that [mkdir] or [open] refuses (a directory, a parent that is a
    regular file, a missing permission). *)
Inductive note : Type :=
  | Absent
  | Text (content : string)
  | Unwritable.

(** [append_markdown]: the file is opened with mode ["a"]. *)
Definition append_markdown (target : note) (markdown : string) : result note :=
  match target with
  | Absent => Ok (Text (note_text markdown))
  | Text content => Ok (Text (content +:+ note_text markdown))
  | Unwritable => Raise OSError
  end.

(** [replace_markdown]: the file is opened with mode ["w"]. *)
Definition replace_markdown (target : note) (markdown : string) : result note :=
  match target with
  | Absent | Text _ => Ok (Text (note_text markdown))
  | Unwritable => Raise OSError
  end.

(** The heading of a section; [ts] is [now.strftime("%Y-%m-%d %H:%M:%S")]. *)
Definition heading (title ts : string) : string :=
  "## " +:+ title +:+ " (" +:+ ts +:+ ")".

(** [format_section] *)
Definition format_section (title : string) (lines : list string) (ts : string)
  : string :=
  Str.join (String newline "") ([heading title ts] ++ lines ++ [""]).

(** The lines that [DownloadsJanitor._maybe_write_obsidian] hands to
    [format_section] once the target is resolved. *)
Definition rel_text (root p : Path) : string :=
  match relative_to p root with
  | Some rel => match rel with [] => "." | _ => Str.join "/" rel end
  | None => name p
  end.

Definition move_line (root : Path) (move : Path * Path) : string :=
  "- `" +:+ rel_text root move.1 +:+ "` → `" +:+ rel_text root move.2 +:+ "`".

Definition report_lines (cfg : Janitor.JanitorSettings) (r : Janitor.report)
  : list string :=
  [ "- moved: **" +:+ pretty (Janitor.moved_count r) +:+ "**, skipped: **"
    +:+ pretty (Janitor.skipped_count r) +:+ "**";
    "" ]
  ++ map (move_line (Janitor.root cfg)) (Janitor.moves r).

End Obsidian.

Module ObsidianFacts.

Import Obsidian GitOverview GitReport.

(** Each line followed by a newline. *)
Fixpoint unlines (lines : list string) : string :=
  match lines with
  | [] => ""
  | line :: rest => line +:+ String newline (unlines rest)
  end.

Fixpoint newlines (k : nat) : string :=
  match k with
  | O => ""
  | S k' => String newline (newlines k')
  end.

Fixpoint ends_with_newline (s : string) : bool :=
  match s with
  | "" => false
  | String c "" => bool_decide (c = newline)
  | String _ rest => ends_with_newline rest
  end.

(** What is on disk after a write. *)
Definition content (target : note) : string :=
  match target with
  | Text text => text
  | Absent | Unwritable => ""
  end.

Lemma app_cons_str (c : ascii) (s t : string) :
  String c s +:+ t = String c (s +:+ t).
Proof. done. Qed.

Lemma app_nonempty_r (s t : string) : t <> "" -> s +:+ t <> "".
Proof. destruct s; [done|]. by rewrite app_cons_str. Qed.

Lemma ends_with_newline_cons (c : ascii) (s : string) :
  s <> "" -> ends_with_newline (String c s) = ends_with_newline s.
Proof. by destruct s. Qed.

Lemma ends_with_newline_app (s t : string) :
  t <> "" -> ends_with_newline (s +:+ t) = ends_with_newline t.
Proof.
  intros Ht. induction s as [|c s IH]; [done|].
  rewrite app_cons_str, ends_with_newline_cons; [done|by apply app_nonempty_r].
Qed.

Lemma rstrip_newlines_fixed (s : string) :
  ends_with_newline s = false -> rstrip_newlines s = s.
Proof.
  induction s as [|c s IH]; [done|]. destruct s as [|c' s].
  - simpl. intros Hc%bool_decide_eq_false. by destruct (decide (c = newline)).
  - intros Hends. rewrite ends_with_newline_cons in Hends by done.
    change (rstrip_newlines (String c (String c' s)))
      with (match rstrip_newlines (String c' s) with
            | "" => if decide (c = newline) then "" else String c ""
            | kept => String c kept
            end).
    by rewrite (IH Hends).
Qed.

Lemma rstrip_newlines_snoc (s : string) :
  rstrip_newlines (s +:+ String newline "") = rstrip_newlines s.
Proof.
  induction s as [|c s IH]; [done|]. rewrite app_cons_str. simpl. by rewrite IH.
Qed.

Lemma rstrip_newlines_ends (s : string) :
  ends_with_newline (rstrip_newlines s) = false.
Proof.
  induction s as [|c s IH]; [done|]. simpl.
  destruct (rstrip_newlines s) as [|c' kept] eqn:Hkept.
  - destruct (decide (c = newline)); [done|]. simpl. by apply bool_decide_eq_false.
  - by rewrite ends_with_newline_cons.
Qed.

Lemma rstrip_newlines_decompose (s : string) :
  exists k, s = rstrip_newlines s +:+ newlines k.
Proof.
  induction s as [|c s [k IH]]; [by exists 0|]. simpl.
  destruct (rstrip_newlines s) as [|c' kept] eqn:Hkept.
  - destruct (decide (c = newline)) as [->|Hc].
    + exists (S k). simpl. by rewrite IH at 1.
    + exists k. rewrite app_cons_str. by rewrite IH at 1.
  - exists k. rewrite app_cons_str. by rewrite IH at 1.
Qed.

Lemma length_newlines (k : nat) : String.length (newlines k) = k.
Proof. induction k; simpl; congruence. Qed.

(** X14. The text written to a note is the markdown with its trailing
    newlines replaced by exactly one: nothing else is touched, the text ends
    with one newline that follows no other, and text that is already of this
    form is written as it is. *)
Theorem note_text_ends_with_one_newline (markdown : string) :
  (exists body k,
     markdown = body +:+ newlines k /\
     ends_with_newline body = false /\
     note_text markdown = body +:+ newlines 1) /\
  note_text (note_text markdown) = note_text markdown /\
  (note_text markdown = markdown <->
   exists body, markdown = body +:+ newlines 1 /\ ends_with_newline body = false).
Proof.
  split_and!.
  - destruct (rstrip_newlines_decompose markdown) as [k Hk].
    exists (rstrip_newlines markdown), k.
    split_and!; [done|apply rstrip_newlines_ends|done].
  - unfold note_text.
    by rewrite rstrip_newlines_snoc, (rstrip_newlines_fixed _ (rstrip_newlines_ends _)).
  - split.
    + intros Heq. exists (rstrip_newlines markdown).
      split; [by rewrite <- Heq at 1|apply rstrip_newlines_ends].
    + intros (body & -> & Hbody). unfold note_text. simpl newlines.
      by rewrite rstrip_newlines_snoc, (rstrip_newlines_fixed _ Hbody).
Qed.

(** *** Sections *)

Lemma app_snoc_inj (s t : string) (c : ascii) :
  s +:+ String c "" = t +:+ String c "" -> s = t.
Proof.
  revert t. induction s as [|a s IH]; intros [|b t]; rewrite ?app_cons_str.
  - done.
  - intros [= _ H]. by destruct (app_nonempty_r t (String c "")).
  - intros [= _ H]. by destruct (app_nonempty_r s (String c "")).
  - intros [= -> H]. by rewrite (IH _ H).
Qed.

Lemma join_unlines (lines : list string) :
  lines <> [] -> Str.join (String newline "") (lines ++ [""]) = unlines lines.
Proof.
  induction lines as [|line [|line' rest] IH]; [done| |]; intros _.
  - simpl. by rewrite GitReportFacts.app_nil_r_str.
  - change (line +:+ String newline "" +:+
            Str.join (String newline "") ((line' :: rest) ++ [""])
            = line +:+ String newline (unlines (line' :: rest))).
    by rewrite IH.
Qed.

Lemma format_section_unlines (title ts : string) (lines : list string) :
  format_section title lines ts = unlines (heading title ts :: lines).
Proof.
  unfold format_section. rewrite app_assoc. by apply join_unlines.
Qed.

Lemma unlines_snoc (lines : list string) (line : string) :
  unlines (lines ++ [line]) = (unlines lines +:+ line) +:+ String newline "".
Proof.
  induction lines as [|l lines IH]; simpl; [done|].
  rewrite IH, !GitReportFacts.app_assoc_str. reflexivity.
Qed.

Lemma unlines_ends (lines : list string) :
  lines <> [] -> ends_with_newline (unlines lines) = true.
Proof.
  destruct lines as [|l lines _] using rev_ind; [done|]. intros _.
  rewrite unlines_snoc, ends_with_newline_app by done. done.
Qed.

Lemma heading_ends (title ts : string) :
  heading title ts <> "" /\ ends_with_newline (heading title ts) = false.
Proof.
  unfold heading. split; [done|].
  rewrite !ends_with_newline_app; try done; by repeat apply app_nonempty_r.
Qed.

(** The last line of a section decides whether its text survives
    [rstrip("\n")]. *)
Lemma note_text_unlines (first : string) (lines : list string) :
  first <> "" -> ends_with_newline first = false ->
  (note_text (unlines (first :: lines)) = unlines (first :: lines) <->
   forall line, last lines = Some line ->
     line <> "" /\ ends_with_newline line = false).
Proof.
  intros Hne Hends. unfold note_text.
  destruct lines as [|l lines _] using rev_ind.
  - split; [done|]. intros _. simpl.
    by rewrite rstrip_newlines_snoc, (rstrip_newlines_fixed _ Hends).
  - rewrite app_comm_cons, unlines_snoc, rstrip_newlines_snoc, last_snoc.
    split.
    + intros Heq%app_snoc_inj line [= <-].
      pose proof (rstrip_newlines_ends (unlines (first :: lines) +:+ l)) as Hr.
      rewrite Heq in Hr. destruct l as [|c l].
      * rewrite GitReportFacts.app_nil_r_str, unlines_ends in Hr; done.
      * split; [done|]. by rewrite ends_with_newline_app in Hr.
    + intros Hlast. destruct (Hlast l eq_refl) as [Hl Hle].
      rewrite rstrip_newlines_fixed; [done|].
      by rewrite ends_with_newline_app.
Qed.

Lemma section_text_exact (title ts : string) (lines : list string) :
  (forall line, last lines = Some line ->
     line <> "" /\ ends_with_newline line = false) ->
  note_text (format_section title lines ts) = unlines (heading title ts :: lines).
Proof.
  intros Hlast. rewrite format_section_unlines.
  destruct (heading_ends title ts) as [Hne Hends].
  by apply note_text_unlines.
Qed.

Lemma unlines_blank (lines : list string) (k : nat) :
  unlines (lines ++ replicate k "") = unlines lines +:+ newlines k.
Proof.
  induction lines as [|l lines IH]; simpl.
  - induction k as [|k IHk]; simpl; [done|]. by rewrite IHk.
  - rewrite IH, GitReportFacts.app_assoc_str. reflexivity.
Qed.

Lemma rstrip_newlines_newlines (s : string) (k : nat) :
  rstrip_newlines (s +:+ newlines k) = rstrip_newlines s.
Proof.
  revert s. induction k as [|k IH]; intros s; simpl.
  - by rewrite GitReportFacts.app_nil_r_str.
  - change (String newline (newlines k)) with (String newline "" +:+ newlines k).
    rewrite <- GitReportFacts.app_assoc_str, IH. apply rstrip_newlines_snoc.
Qed.

(** X15. [format_section] gives the heading and the lines, each followed by
    a newline.  Writing it to a note keeps it as it is exactly when the last
    line is neither empty nor ends with a newline; empty lines at the end of
    a section are never written. *)
Theorem section_is_written_up_to_trailing_blank_lines
    (title ts : string) (lines : list string) :
  format_section title lines ts = unlines (heading title ts :: lines) /\
  (note_text (format_section title lines ts) = format_section title lines ts <->
   forall line, last lines = Some line ->
     line <> "" /\ ends_with_newline line = false) /\
  (forall k, note_text (format_section title (lines ++ replicate k "") ts)
             = note_text (format_section title lines ts)).
Proof.
  destruct (heading_ends title ts) as [Hne Hends].
  split_and!.
  - apply format_section_unlines.
  - rewrite format_section_unlines. by apply note_text_unlines.
  - intros k. rewrite !format_section_unlines, app_comm_cons, unlines_blank.
    unfold note_text. by rewrite rstrip_newlines_newlines.
Qed.

(** *** The two notes *)

Lemma table_row_ends (status : RepoStatus) (now_utc : Z) :
  table_row status now_utc <> "" /\
  ends_with_newline (table_row status now_utc) = false.
Proof.
  unfold table_row. split; [done|].
  rewrite !ends_with_newline_app; try done; by repeat apply app_nonempty_r.
Qed.

Lemma table_last_line (statuses : list RepoStatus) (now_utc : Z) (line : string) :
  last (_build_table_lines statuses now_utc) = Some line ->
  line <> "" /\ ends_with_newline line = false.
Proof.
  destruct statuses as [|status statuses _] using rev_ind.
  - by intros [= <-].
  - replace (_build_table_lines (statuses ++ [status]) now_utc)
      with ((table_header ++ map (fun status => table_row status now_utc) statuses)
            ++ [table_row status now_utc]).
    + rewrite last_snoc. intros [= <-]. apply table_row_ends.
    + unfold _build_table_lines. rewrite List.map_app, <- app_assoc.
      by destruct statuses.
Qed.

Lemma move_line_ends (root : Path) (move : Path * Path) :
  move_line root move <> "" /\ ends_with_newline (move_line root move) = false.
Proof.
  unfold move_line. split; [done|].
  rewrite !ends_with_newline_app; try done; by repeat apply app_nonempty_r.
Qed.

Lemma report_last_line (cfg : Janitor.JanitorSettings) (r : Janitor.report)
    (line : string) :
  Janitor.moves r <> [] ->
  last (report_lines cfg r) = Some line ->
  line <> "" /\ ends_with_newline line = false.
Proof.
  unfold report_lines.
  destruct (Janitor.moves r) as [|move moves _] using rev_ind; [done|]. intros _.
  rewrite List.map_app, app_assoc. simpl List.map. rewrite last_snoc.
  intros [= <-]. apply move_line_ends.
Qed.

(** X16. The note of the Dev Git Overview, once written, holds the heading
    and the lines of the table and nothing else, each followed by one
    newline: what the note held before is gone, and no line of the table is
    lost. *)
Theorem overview_note_is_heading_and_table
    (title ts : string) (statuses : list RepoStatus) (now_utc : Z) (target : note) :
  target <> Unwritable ->
  replace_markdown target
    (format_section title (_build_table_lines statuses now_utc) ts)
  = Ok (Text (unlines (heading title ts :: _build_table_lines statuses now_utc))).
Proof.
  intros Htarget.
  pose proof (section_text_exact title ts _ (table_last_line statuses now_utc)) as Htext.
  destruct target; simpl; by rewrite ?Htext.
Qed.

Lemma overview_note_is_heading_and_table_witness :
  replace_markdown (Text "stale")
    (format_section "Repos" (_build_table_lines [] 0) "2026-01-01 00:00:00")
  = Ok (Text (unlines (heading "Repos" "2026-01-01 00:00:00"
                       :: _build_table_lines [] 0))).
Proof.
  apply (overview_note_is_heading_and_table
           "Repos" "2026-01-01 00:00:00" [] 0 (Text "stale")).
  discriminate.
Defined.

(** X17. The note of the Downloads Janitor grows by one section for a
    report with moves: what it held stays in front, and the section is the
    heading, the line of counts, an empty line and one line per move, each
    followed by one newline. *)
Theorem report_note_keeps_earlier_sections
    (cfg : Janitor.JanitorSettings) (r : Janitor.report) (title ts : string)
    (target : note) :
  Janitor.moves r <> [] ->
  target <> Unwritable ->
  append_markdown target (format_section title (report_lines cfg r) ts)
  = Ok (Text (content target
              +:+ unlines (heading title ts :: report_lines cfg r))) /\
  length (report_lines cfg r) = 2 + length (Janitor.moves r).
Proof.
  intros Hmoves Htarget.
  pose proof (section_text_exact title ts _
                (fun line => report_last_line cfg r line Hmoves)) as Htext.
  split.
  - destruct target; simpl; by rewrite ?Htext.
  - unfold report_lines. simpl. by rewrite List.length_map.
Qed.

Lemma report_note_keeps_earlier_sections_witness :
  append_markdown (Text "earlier")
    (format_section "Janitor"
       (report_lines JanitorFacts.default_settings JanitorFacts.report_mixed)
       "2026-01-01 00:00:00")
  = Ok (Text (content (Text "earlier")
              +:+ unlines (heading "Janitor" "2026-01-01 00:00:00"
                           :: report_lines JanitorFacts.default_settings
                                JanitorFacts.report_mixed))) /\
  length (report_lines JanitorFacts.default_settings JanitorFacts.report_mixed)
  = 2 + length (Janitor.moves JanitorFacts.report_mixed).
Proof.
  apply (report_note_keeps_earlier_sections
           JanitorFacts.default_settings JanitorFacts.report_mixed
           "Janitor" "2026-01-01 00:00:00" (Text "earlier")).
  - vm_compute. discriminate.
  - discriminate.
Defined.

End ObsidianFacts.

(** * The extension of a renamed file *)

Module UniquePathMore.

Import Fs Classify UniquePathFacts.

Lemma rfind_app_Some (c : ascii) (s t : string) (j : nat) :
  Str.rfind c t = Some j -> Str.rfind c (s +:+ t) = Some (String.length s + j).
Proof.
  intros Ht. induction s as [|a s IH]; [done|].
  change (String a s +:+ t) with (String a (s +:+ t)). simpl. by rewrite IH.
Qed.

Lemma rfind_drop (c : ascii) (n : string) (i : nat) :
  Str.rfind c n = Some i -> Str.rfind c (Str.drop i n) = Some 0.
Proof.
  revert i. induction n as [|a n IH]; intros i; [done|]. simpl.
  destruct (Str.rfind c n) as [i'|] eqn:Hn.
  - intros [= <-]. simpl. by apply IH.
  - destruct (decide (a = c)) as [->|]; [|done]. intros [= <-]. simpl.
    rewrite Hn. by destruct (decide (c = c)).
Qed.

Lemma length_drop_str (i : nat) (n : string) :
  String.length (Str.drop i n) = String.length n - i.
Proof.
  revert n. induction i as [|i IH]; intros [|a n]; simpl; done.
Qed.

Lemma drop_app_length (p s : string) : Str.drop (String.length p) (p +:+ s) = s.
Proof. induction p as [|a p IH]; [by destruct s|done]. Qed.

Lemma take_app_length (p s : string) : Str.take (String.length p) (p +:+ s) = p.
Proof.
  induction p as [|a p IH]; [by destruct s|].
  change (String a p +:+ s) with (String a (p +:+ s)). simpl. by rewrite IH.
Qed.

(** A non-empty suffix starts with its only dot and has a character after
    it. *)
Lemma name_suffix_shape (n : string) :
  name_suffix n <> "" ->
  Str.rfind "." (name_suffix n) = Some 0 /\ 2 <= String.length (name_suffix n).
Proof.
  unfold name_suffix. destruct (Str.rfind "." n) as [i|] eqn:Hi; [|done].
  destruct (0 <? i)%nat eqn:H0; [|done].
  destruct (i <? String.length n - 1)%nat eqn:H1; [|done].
  simpl. intros _. apply Nat.ltb_lt in H1.
  split; [by apply rfind_drop|]. rewrite length_drop_str. lia.
Qed.

Lemma name_suffix_app (p sfx : string) :
  p <> "" -> Str.rfind "." sfx = Some 0 -> 2 <= String.length sfx ->
  name_suffix (p +:+ sfx) = sfx /\ name_stem (p +:+ sfx) = p.
Proof.
  intros Hp Hdot Hlen. unfold name_suffix, name_stem.
  rewrite (rfind_app_Some _ p _ _ Hdot), Nat.add_0_r, length_app_str.
  assert (0 < String.length p) as H0 by (destruct p; [done|simpl; lia]).
  assert ((0 <? String.length p)%nat = true) as -> by (by apply Nat.ltb_lt).
  assert ((String.length p <? String.length p + String.length sfx - 1)%nat = true)
    as -> by (apply Nat.ltb_lt; lia).
  simpl. by rewrite drop_app_length, take_app_length.
Qed.

Lemma alt_name_split (stem suffix : string) (i : nat) :
  alt_name stem suffix i = (stem +:+ " (" +:+ pretty i +:+ ")") +:+ suffix.
Proof.
  unfold alt_name. by rewrite !GitReportFacts.app_assoc_str.
Qed.

Lemma name_joinpath (dir : Path) (n : string) : name (joinpath dir n) = n.
Proof. unfold name, joinpath. apply List.last_last. Qed.

(** X18. A file that has an extension keeps it when it is renamed to avoid
    a collision: the counter goes between the stem and the suffix, so the
    new name has the same suffix, the stem followed by [" (i)"] with
    [2 <= i], and the same category. *)
Theorem unique_target_path_keeps_extension
    (taken : gset string) (filename : string) :
  name_suffix filename <> "" ->
  name_suffix (unique_target_path taken filename) = name_suffix filename /\
  (filename ∈ taken ->
   exists i, 2 <= i /\
     name_stem (unique_target_path taken filename)
     = name_stem filename +:+ " (" +:+ pretty i +:+ ")") /\
  (forall dir : Path,
     _classify (joinpath dir (unique_target_path taken filename))
     = _classify (joinpath dir filename)).
Proof.
  intros Hsfx. destruct (name_suffix_shape filename Hsfx) as [Hdot Hlen].
  assert (Hcases : unique_target_path taken filename = filename /\ filename ∉ taken \/
                   exists i, 2 <= i /\
                     unique_target_path taken filename
                     = (name_stem filename +:+ " (" +:+ pretty i +:+ ")")
                       +:+ name_suffix filename).
  { unfold unique_target_path. case_bool_decide as Hin; [right|by left].
    destruct (probe_first_free taken (name_stem filename) (name_suffix filename)
                (size taken) 2 (free_candidate taken _ _ 2))
      as (i & Hi & -> & _ & _).
    exists i. split; [done|apply alt_name_split]. }
  assert (Hsame : name_suffix (unique_target_path taken filename)
                  = name_suffix filename).
  { destruct Hcases as [[-> _]|(i & _ & ->)]; [done|].
    apply name_suffix_app; [|done|done].
    by repeat apply ObsidianFacts.app_nonempty_r. }
  split_and!; [done| |].
  - intros Hin. destruct Hcases as [[_ Hout]|(i & Hi & ->)]; [done|].
    exists i. split; [done|].
    apply name_suffix_app; [|done|done].
    by repeat apply ObsidianFacts.app_nonempty_r.
  - intros dir. unfold _classify, extension, suffix.
    by rewrite !name_joinpath, Hsame.
Qed.

Lemma unique_target_path_keeps_extension_witness :
  name_suffix (unique_target_path {[ "photo.JPG" ]} "photo.JPG")
  = name_suffix "photo.JPG" /\
  ("photo.JPG" ∈ ({[ "photo.JPG" ]} : gset string) ->
   exists i, 2 <= i /\
     name_stem (unique_target_path {[ "photo.JPG" ]} "photo.JPG")
     = name_stem "photo.JPG" +:+ " (" +:+ pretty i +:+ ")") /\
  (forall dir : Path,
     _classify (joinpath dir (unique_target_path {[ "photo.JPG" ]} "photo.JPG"))
     = _classify (joinpath dir "photo.JPG")).
Proof.
  apply (unique_target_path_keeps_extension {[ "photo.JPG" ]} "photo.JPG").
  vm_compute. discriminate.
Defined.

(** Without an extension the suffix can change: a name that ends with a dot
    gets the counter as its suffix. *)
Example trailing_dot_gets_a_suffix :
  name_suffix "draft." = "" /\
  unique_target_path {[ "draft." ]} "draft." = "draft. (2)" /\
  name_suffix (unique_target_path {[ "draft." ]} "draft.") = ". (2)".
Proof. by vm_compute. Qed.

End UniquePathMore.

(** * A scan after [_bootstrap] *)

Module JanitorSettles.

Import Classify Fs Janitor JanitorFacts.

#[local] Arguments scan_entry : simpl never.

Section Scan.

Variable fnmatch : string -> string -> bool.
Variable cfg : JanitorSettings.
Variable now : Z.

Hypothesis live : dry_run cfg = false.












End Scan.




End JanitorSettles.
